(** * Quantum-AI: the admin analytics view and the database stack

    A shallow embedding of the two source files of the repository:
    - the React component [AdminAnalytics] (fetch, sort, chart data,
      formatting helpers, rendering), and
    - the CDK construct [DatabaseStack] (database instance, secrets,
      proxies, ingress rule, target-group workaround).

    Part I holds the definitions, Part II the lemmas and theorems. *)

From Stdlib Require Import ZArith QArith Qround Lqa Ascii DecimalString.
From stdpp Require Import gmap strings list.

Open Scope Z_scope.

(* ===================================================================== *)
(** * Part I: definitions *)
(* ===================================================================== *)

(** ** The JavaScript built-ins the component relies on *)

Module JS.

(** A JavaScript string is a sequence of UTF-16 code units. *)
Abbreviation str := (list N).

(** An ASCII literal of the source, as code units. *)
Definition lit (s : string) : str :=
  N_of_ascii <$> String.list_ascii_of_string s.

(** The primitive values the component passes around. A number is a
    finite double, written as the rational it stands for. [Math.floor],
    [Math.round] and [%] give their exact results on doubles; a
    division gives the double nearest to the exact quotient ([div]
    below). Not-a-number and the infinities are left out. *)
Inductive value : Type :=
| VUndefined
| VNull
| VBool (b : bool)
| VNumber (q : Q)
| VString (s : str).

(** [typeof v === "string"] *)
Definition is_string (v : value) : bool :=
  match v with VString _ => true | _ => false end.

(** [Math.floor] *)
Definition Math_floor (x : Q) : Z := Qfloor x.

(** [Math.round]: the nearest integer, ties towards +infinity. *)
Definition Math_round (x : Q) : Z := Qfloor (x + (1 # 2)).

(** Truncation towards zero, as used by the remainder operator. *)
Definition trunc (x : Q) : Z := Z.quot (Qnum x) (Z.pos (Qden x)).

(** [x % y]: the remainder has the sign of the dividend. *)
Definition rem (x y : Q) : Q := (x - y * inject_Z (trunc (x / y)))%Q.

(** Rounding of a quotient [a / b] of positive integers to the nearest
    integer, ties to the even one. *)
Definition round_half_even (a b : Z) : Z :=
  let q := a / b in
  let r := a mod b in
  if 2 * r <? b then q
  else if b <? 2 * r then q + 1
  else if Z.even q then q else q + 1.

(** The power of two at or below a positive fraction [n / d]: the
    exponent [c] with [2^c <= n / d < 2^(c+1)]. *)
Definition binade (n d : Z) : Z :=
  let c := Z.log2 n - Z.log2 d in
  if (if 0 <=? c then 2 ^ c * d <=? n else d <=? 2 ^ (- c) * n)
  then c else c - 1.

(** The double nearest to a positive fraction [n / d], ties to even: a
    significand of 53 bits, or fewer below 2^-1022 where the exponent
    stays at -1074. Fractions from 2^1024 on, which a machine turns into
    infinity, are outside this definition. *)
Definition nearest_double_pos (n : Z) (d : positive) : Q :=
  let e := Z.max (binade n (Z.pos d) - 52) (-1074) in
  if 0 <=? e
  then inject_Z (round_half_even n (Z.pos d * 2 ^ e) * 2 ^ e)
  else Qmake (round_half_even (n * 2 ^ (- e)) (Z.pos d))
             (Z.to_pos (2 ^ (- e))).

Definition nearest_double (x : Q) : Q :=
  match Qnum x with
  | Z0 => 0%Q
  | Zpos p => nearest_double_pos (Zpos p) (Qden x)
  | Zneg p => Qopp (nearest_double_pos (Zpos p) (Qden x))
  end.

(** [x / y] for a divisor that is not zero. *)
Definition div (x y : Q) : Q := nearest_double (x / y).

(** [Math.max(...xs)]; [None] stands for the [-Infinity] of an empty
    spread. *)
Definition Math_max (xs : list Z) : option Z :=
  match xs with
  | [] => None
  | x :: xs' => Some (foldl Z.max x xs')
  end.

(** Number-to-string conversion of an integral number, as done by a
    template literal or by rendering a number as text: all the digits,
    which is what the engine writes for magnitudes below 10^21 (from
    there on it writes an exponent, which is outside this definition). *)
Definition Number_toString (z : Z) : str :=
  lit (NilZero.string_of_int (Z.to_int z)).

(** [s.charAt(0)]: the string of the first code unit, or the empty
    string. *)
Definition charAt0 (s : str) : str := take 1 s.

(** [s.slice(1)] *)
Definition slice1 (s : str) : str := drop 1 s.

(** [s.split(sep)] for a separator of one code unit: the pieces between
    the separators, empty pieces included; the empty string gives one
    empty piece. *)
Fixpoint split (sep : N) (s : str) : list str :=
  match s with
  | [] => [[]]
  | c :: r =>
      if N.eqb c sep then [] :: split sep r
      else match split sep r with
           | w :: ws => (c :: w) :: ws
           | [] => [[c]]
           end
  end.

(** [ws.join(sep)] *)
Fixpoint join (sep : N) (ws : list str) : str :=
  match ws with
  | [] => []
  | [w] => w
  | w :: ws' => w ++ sep :: join sep ws'
  end.

(** [String.prototype.toUpperCase] on the code units U+0000..U+00FF,
    following the Unicode case mappings of those characters: the ASCII
    and Latin-1 small letters move to their capitals, U+00DF (sharp s)
    becomes the two letters SS, U+00B5 (micro sign) becomes U+039C and
    U+00FF becomes U+0178. Code units above U+00FF are outside this
    table and are returned as they are. *)
Definition upper_unit (c : N) : str :=
  (if (97 <=? c) && (c <=? 122) then [c - 32]
   else if c =? 181 then [924]
   else if c =? 223 then [83; 83]
   else if (224 <=? c) && (c <=? 254) && negb (c =? 247) then [c - 32]
   else if c =? 255 then [376]
   else [c])%N.

Definition toUpperCase_latin1 (s : str) : str := s ≫= upper_unit.

(** The case mapping is data of the engine (the Unicode tables), so the
    component sees it through this interface. *)
Class Casing := toUpperCase : str → str.

(** [xs.sort(cmp)]: the sort is stable; an element moves behind a
    neighbour only when the comparator says it is greater. Written as
    an insertion sort, each element is inserted in front of the ones
    that followed it in the input. The language fixes this result for a
    comparator that orders the elements consistently; for one that does
    not, the order is the engine's, and nothing is stated about it. *)
Section Sort.
Context {A : Type} (cmp : A → A → Z).

Fixpoint insert_sorted (x : A) (l : list A) : list A :=
  match l with
  | [] => [x]
  | y :: l' => if 0 <? cmp x y then y :: insert_sorted x l' else x :: l
  end.

Definition sort (l : list A) : list A := foldr insert_sorted [] l.
End Sort.

End JS.


(** ** Computations with state and exceptions

    Both source files are sequences of calls that change objects and may
    throw. [SE.M E S A] is a computation over a state [S] that returns an
    [A] or throws an [E]; what was written before a throw stays written. *)

Module SE.

Definition M (E S A : Type) : Type := S → (E + A) * S.

Section Ops.
Context {E S : Type}.

#[export] Instance M_ret : MRet (M E S) := λ A a s, (inr a, s).

#[export] Instance M_bind : MBind (M E S) := λ A B f m s,
  match m s with
  | (inr a, s') => f a s'
  | (inl e, s') => (inl e, s')
  end.

Definition throw {A} (e : E) : M E S A := λ s, (inl e, s).

(** [try { body } catch (error) { handler }] *)
Definition try_catch {A} (body : M E S A) (handler : E → M E S A)
  : M E S A :=
  λ s, match body s with
       | (inl e, s') => handler e s'
       | r => r
       end.

Definition get : M E S S := λ s, (inr s, s).

Definition modify (f : S → S) : M E S unit := λ s, (inr (), f s).
End Ops.

End SE.

Export SE.

(** What a [throw] or a rejected promise carries. *)
Inductive exn : Type :=
| TypeError (message : string)
| SyntaxError (message : string)
| Rejection (message : string).

(** ** The analytics view ([AdminAnalytics]) *)

Module AdminAnalytics.

(** One element of the analytics payload. Counts are integers, session
    times are numbers of seconds. *)
Record TopicAnalytics := {
  topic_name : JS.str;
  user_message_count : Z;
  ai_message_count : Z;
  average_session_time : Q;
  total_session_time : Q;
  sessions_created : Z;
  sessions_deleted : Z
}.

(** One point of the line chart. *)
Record ChartPoint := { module : JS.str; Messages : Z }.

(** *** Formatting helpers *)

Definition space : N := 32.

Section TitleCase.
Context `{JS.Casing}.

(** The function mapped over the words:
    [word.charAt(0).toUpperCase() + word.slice(1)]. *)
Definition capitalize (word : JS.str) : JS.str :=
  JS.toUpperCase (JS.charAt0 word) ++ JS.slice1 word.

Definition titleCase (v : JS.value) : JS.value :=
  match v with
  | JS.VString s =>
      JS.VString (JS.join space (capitalize <$> JS.split space s))
  | _ => v
  end.
End TitleCase.

(** The template literal [`${minutes}m ${remainingSeconds}s`]. *)
Definition minutes_seconds (minutes remainingSeconds : Z) : JS.str :=
  JS.Number_toString minutes ++ JS.lit "m " ++
  JS.Number_toString remainingSeconds ++ JS.lit "s".

Definition formatTime (seconds : Q) : JS.str :=
  let minutes := JS.Math_floor (JS.div seconds 60) in
  let remainingSeconds := JS.Math_round (JS.rem seconds 60) in
  minutes_seconds minutes remainingSeconds.

(** *** The fetched data *)

Definition General : JS.str := JS.lit "General".

(** The test the comparator makes on a record. *)
Definition isGeneral (r : TopicAnalytics) : Prop := topic_name r = General.

#[export] Instance isGeneral_dec r : Decision (isGeneral r).
Proof. unfold isGeneral. apply _. Defined.

(** The comparator handed to [sort]. *)
Definition compareTopics (a b : TopicAnalytics) : Z :=
  if bool_decide (topic_name a = General) then -1
  else if bool_decide (topic_name b = General) then 1
  else 0.

Definition sortedAnalyticsData (analyticsData : list TopicAnalytics)
  : list TopicAnalytics :=
  JS.sort compareTopics analyticsData.

Definition toChartPoint (topic : TopicAnalytics) : ChartPoint :=
  {| module := topic_name topic; Messages := user_message_count topic |}.

Definition graphDataFormatted (sorted : list TopicAnalytics)
  : list ChartPoint :=
  toChartPoint <$> sorted.

(** *** The items of the body *)

(** An item of the array that the server answers with: a record of the
    data model or [null] ([None]). *)
Abbreviation Item := (option TopicAnalytics).

(** The records of a list of items, when none of them is [null]. *)
Fixpoint records (items : list Item) : option (list TopicAnalytics) :=
  match items with
  | [] => Some []
  | Some topic :: rest => (λ l, topic :: l) <$> records rest
  | None :: _ => None
  end.

(** *** View state, effects and exceptions *)

(** The five [useState] cells of the component. *)
Record ViewState := {
  value : Z;
  graphData : list ChartPoint;
  data : list Item;
  maxMessages : Z;
  loading : bool
}.

Definition initialState : ViewState :=
  {| value := 0; graphData := []; data := []; maxMessages := 0;
     loading := false |}.

(** The second argument of a console call. *)
Inductive logged : Type :=
| LText (s : JS.str)
| LExn (e : exn)
| LData (d : list Item).

(** The calls the component makes on its setters and on the console, in
    the order they happen. *)
Inductive event : Type :=
| SetLoading (b : bool)
| SetData (d : list Item)
| SetGraphData (g : list ChartPoint)
| SetMaxMessages (m : Z)
| SetValue (v : Z)
| ConsoleLog (label : JS.str) (what : logged)
| ConsoleError (label : JS.str) (what : logged).

Record World := { view : ViewState; trace : list event }.

(** The computations of the component. *)
Abbreviation M := (SE.M exn World).

(** [await p] for a promise that has settled as [p]. *)
Definition await {A} (p : exn + A) : M A :=
  match p with inl e => throw e | inr a => mret a end.

Definition getState : M ViewState := w ← SE.get; mret (view w).

Definition getTrace : M (list event) := w ← SE.get; mret (trace w).

Definition perform (e : event) (upd : ViewState → ViewState) : M unit :=
  modify (λ w, {| view := upd (view w); trace := trace w ++ [e] |}).

Definition setValue (v : Z) : M unit :=
  perform (SetValue v) (λ s,
    {| value := v; graphData := graphData s; data := data s;
       maxMessages := maxMessages s; loading := loading s |}).

Definition setGraphData (g : list ChartPoint) : M unit :=
  perform (SetGraphData g) (λ s,
    {| value := value s; graphData := g; data := data s;
       maxMessages := maxMessages s; loading := loading s |}).

Definition setData (d : list Item) : M unit :=
  perform (SetData d) (λ s,
    {| value := value s; graphData := graphData s; data := d;
       maxMessages := maxMessages s; loading := loading s |}).

Definition setMaxMessages (m : Z) : M unit :=
  perform (SetMaxMessages m) (λ s,
    {| value := value s; graphData := graphData s; data := data s;
       maxMessages := m; loading := loading s |}).

Definition setLoading (b : bool) : M unit :=
  perform (SetLoading b) (λ s,
    {| value := value s; graphData := graphData s; data := data s;
       maxMessages := maxMessages s; loading := b |}).

Definition console_log (label : JS.str) (what : logged) : M unit :=
  perform (ConsoleLog label what) id.

Definition console_error (label : JS.str) (what : logged) : M unit :=
  perform (ConsoleError label what) id.

(** *** The outside world of [fetchAnalytics] *)

Record AuthTokens := { idToken : JS.str }.

(** The session object; [tokens] is absent when nobody is signed in. *)
Record AuthSession := { tokens : option AuthTokens }.

Record RequestInit := {
  method : JS.str;
  headers : list (JS.str * JS.str)
}.

(** What [response.json()] resolves to: an array of items, or a value
    that is not an array. *)
Inductive Body : Type :=
| NotArray
| Items (items : list Item).

(** The response: its [ok] flag (status 200..299), its status text and
    the outcome of [response.json()], a rejection or a body. *)
Record Response := {
  ok : bool;
  statusText : JS.str;
  json : exn + Body
}.

(** How the promises of one run settle, and what the engine does where
    the language leaves it open: [sortWithNull] is the outcome of [sort]
    on an array of two or more items that holds a [null]. The
    comparator throws when it reads the name of a [null], and whether
    it is asked to depends on the order in which the engine compares
    the items. *)
Record Env := {
  VITE_API_ENDPOINT : JS.str;
  fetchAuthSession : exn + AuthSession;
  fetch : JS.str → RequestInit → exn + Response;
  sortWithNull : list Item → exn + list Item
}.

(** [session.tokens.idToken]: reading a property of [undefined] throws. *)
Definition session_idToken (session : AuthSession) : M JS.str :=
  match tokens session with
  | Some t => mret (idToken t)
  | None =>
      throw (TypeError "Cannot read properties of undefined")
  end.

(** The one request of the component, as its promise settles. *)
Definition analyticsRequest (env : Env) (token : JS.str)
  : exn + Response :=
  fetch env
    (VITE_API_ENDPOINT env ++ JS.lit "admin/analytics")
    {| method := JS.lit "GET";
       headers := [(JS.lit "Authorization", token);
                   (JS.lit "Content-Type", JS.lit "application/json")] |}.

(** [analyticsData.sort(compare)] on the body. A value that is not an
    array has no [sort]. An array of records is sorted by the
    comparator; an array of fewer than two items is returned without a
    call of the comparator. *)
Definition sortBody (env : Env) (analyticsData : Body) : M (list Item) :=
  match analyticsData with
  | NotArray => throw (TypeError "analyticsData.sort is not a function")
  | Items items =>
      match records items with
      | Some topics => mret (Some <$> sortedAnalyticsData topics)
      | None =>
          if (length items <? 2)%nat then mret items
          else await (sortWithNull env items)
      end
  end.

(** [sorted.map(topic => ({ module: ..., Messages: ... }))]: reading a
    property of [null] throws. *)
Definition projectItems (sorted : list Item) : M (list ChartPoint) :=
  match records sorted with
  | Some topics => mret (graphDataFormatted topics)
  | None => throw (TypeError "Cannot read properties of null")
  end.

Definition fetchAnalytics (env : Env) : M unit :=
  setLoading true ;;
  try_catch
    (session ← await (fetchAuthSession env);
     token ← session_idToken session;
     response ← await (analyticsRequest env token);
     if ok response then
       analyticsData ← await (json response);
       sorted ← sortBody env analyticsData;
       console_log (JS.lit "analytics_data") (LData sorted) ;;
       setData sorted ;;
       chartPoints ← projectItems sorted;
       setGraphData chartPoints
     else
       console_error (JS.lit "Failed to fetch analytics:")
         (LText (statusText response)))
    (λ error,
       console_error (JS.lit "Error fetching analytics:") (LExn error)) ;;
  setLoading false.

(** The effect that depends on [graphData]. *)
Definition updateMaxMessages : M unit :=
  s ← getState;
  if (0 <? length (graphData s))%nat then
    match JS.Math_max (Messages <$> graphData s) with
    | Some max => setMaxMessages max
    | None => mret ()
    end
  else mret ().

Definition is_SetGraphData (e : event) : bool :=
  match e with SetGraphData _ => true | _ => false end.

Definition is_SetData (e : event) : bool :=
  match e with SetData _ => true | _ => false end.

Definition is_ConsoleError (e : event) : bool :=
  match e with ConsoleError _ _ => true | _ => false end.


Definition mount (env : Env) : M unit :=
  fetchAnalytics env ;;
  t ← getTrace;
  if existsb is_SetGraphData t then updateMaxMessages else mret ().

Definition run {A} (m : M A) (s : ViewState) : World :=
  (m {| view := s; trace := [] |}).2.

Definition handleChange (newValue : Z) : M unit := setValue newValue.

(** The ways one run can go, read off the environment; used to state
    what happens on each path. *)
Inductive Outcome : Type :=
| SessionFailed (e : exn)
| NoTokens
| RequestFailed (e : exn)
| NotOk (status : JS.str)
| BodyFailed (e : exn)
| BodyNotArray
| Payload (analyticsData : list TopicAnalytics)
| PayloadWithNull (items : list Item).

Definition outcome (env : Env) : Outcome :=
  match fetchAuthSession env with
  | inl e => SessionFailed e
  | inr session =>
      match tokens session with
      | None => NoTokens
      | Some t =>
          match analyticsRequest env (idToken t) with
          | inl e => RequestFailed e
          | inr response =>
              if ok response then
                match json response with
                | inl e => BodyFailed e
                | inr NotArray => BodyNotArray
                | inr (Items items) =>
                    match records items with
                    | Some analyticsData => Payload analyticsData
                    | None => PayloadWithNull items
                    end
                end
              else NotOk (statusText response)
          end
      end
  end.

(** The runs that end before the body is worked on: no session, no
    token, no response, a response that is not ok, a body that cannot be
    read or is not an array. *)
Definition stops_before_setters (o : Outcome) : bool :=
  match o with
  | Payload _ | PayloadWithNull _ => false
  | _ => true
  end.

(** *** Rendering *)

(** The chart box: the line chart with its tick labels and the domain
    of its Y axis, or a line of text. *)
Inductive ChartPanel : Type :=
| LineChart (chartData : list ChartPoint) (ticks : list JS.value)
            (domain : Z * Z)
| ChartText (text : JS.str).

(** One accordion: its key, its summary line and its labelled numbers
    in the order of the grid. *)
Record Accordion := {
  key : nat;
  summary : JS.value;
  details : list (JS.str * JS.str)
}.

Inductive InsightsPanel : Type :=
| InsightList (items : list Accordion)
| InsightText (text : JS.str)
| NoPanel.

Inductive Screen : Type :=
| LoadingScreen
| Page (chart : ChartPanel) (insights : InsightsPanel).

(** Rendering reads the fields of every item of the data, so it throws
    on a [null]. *)
Definition rendered (A : Type) : Type := exn + A.

(** The number shown under "Active Sessions". *)
Definition activeSessions (topic : TopicAnalytics) : Z :=
  sessions_created topic - sessions_deleted topic.

Section Render.
Context `{JS.Casing}.

Definition chartPanel (s : ViewState) : ChartPanel :=
  if (0 <? length (graphData s))%nat then
    LineChart (graphData s)
      ((λ p, titleCase (JS.VString (module p))) <$> graphData s)
      (0, maxMessages s + 3)
  else ChartText (JS.lit "No data found").

Definition accordion (index : nat) (topic : TopicAnalytics)
  : Accordion :=
  {| key := index;
     summary := titleCase (JS.VString (topic_name topic));
     details :=
       [ (JS.lit "User Message Count",
          JS.Number_toString (user_message_count topic));
         (JS.lit "AI Message Count",
          JS.Number_toString (ai_message_count topic));
         (JS.lit "Average Session Time",
          formatTime (average_session_time topic));
         (JS.lit "Total Session Time",
          formatTime (total_session_time topic));
         (JS.lit "Active Sessions",
          JS.Number_toString (activeSessions topic));
         (JS.lit "Sessions Created",
          JS.Number_toString (sessions_created topic));
         (JS.lit "Sessions Deleted",
          JS.Number_toString (sessions_deleted topic)) ] |}.

(** [data.map((topic, index) => ...)] *)
Definition accordions (d : list Item) : rendered (list Accordion) :=
  match records d with
  | Some topics => inr (imap accordion topics)
  | None => inl (TypeError "Cannot read properties of null")
  end.

Definition insightsPanel (s : ViewState) : rendered InsightsPanel :=
  if value s =? 0 then
    if (0 <? length (data s))%nat then
      match accordions (data s) with
      | inr items => inr (InsightList items)
      | inl e => inl e
      end
    else inr (InsightText (JS.lit "No insights available"))
  else inr NoPanel.

Definition render (s : ViewState) : rendered Screen :=
  if loading s then inr LoadingScreen
  else match insightsPanel s with
       | inr insights => inr (Page (chartPanel s) insights)
       | inl e => inl e
       end.
End Render.

(** The text shown for a label of an accordion. *)
Definition shown (label : JS.str) (a : Accordion) : option JS.str :=
  (λ d, d.2.2) <$> list_find (λ d, d.1 = label) (details a).

End AdminAnalytics.


(** ** The database stack ([DatabaseStack]) *)

Module DatabaseStack.

Inductive SubnetType : Type :=
| PRIVATE_ISOLATED
| PRIVATE_WITH_EGRESS
| PUBLIC.

Inductive RemovalPolicy : Type := DESTROY | RETAIN | SNAPSHOT.

(** A value kept in a secret: plain text of the source, or a reference
    to a key of another secret that is resolved at deployment. *)
Inductive SecretValue : Type :=
| unsafePlainText (text : string)
| secretValueFromJson (ofSecret key : string).

(** A secret: made by the stack ([new secretsmanager.Secret]), looked
    up by its name ([Secret.fromSecretNameV2]), or made by a database
    instance for its own credentials, with a generated password. *)
Inductive Secret : Type :=
| NewSecret (id secretName description : string)
            (removalPolicy : RemovalPolicy)
            (secretObjectValue : list (string * SecretValue))
| ImportedSecret (id secretName : string)
| DatabaseSecret (id secretName : string) (username : SecretValue).

Definition secretName (s : Secret) : string :=
  match s with
  | NewSecret _ n _ _ _ => n
  | ImportedSecret _ n => n
  | DatabaseSecret _ n _ => n
  end.

Record ParameterGroup := {
  pgId : string;
  pgEngineVersion : string;
  pgDescription : string;
  parameters : gmap string string
}.

(** The ports of a rule: a port of the source, or the port of the
    endpoint of an instance, which is known at deployment. *)
Inductive Port : Type :=
| tcp (port : Z)
| udp (port : Z)
| allTraffic
| tcpEndpointPort (instance : nat).

(** Where a rule admits traffic from: a range of addresses
    ([ec2.Peer.ipv4]) or the members of a security group. *)
Inductive Peer : Type :=
| ipv4 (cidrIp : string)
| securityGroupId (group : nat).

#[export] Instance Port_eq_dec : EqDecision Port.
Proof. solve_decision. Defined.

#[export] Instance Peer_eq_dec : EqDecision Peer.
Proof. solve_decision. Defined.

Record IngressRule := {
  peer : Peer;
  connection : Port;
  ruleDescription : string
}.

(** A security group is an object shared by the instance and by the
    proxies; it lives in the store of the stack and is named by its
    position there. *)
Record SecurityGroup := { ingressRules : list IngressRule }.

(** What a statement of a policy is about: a text of the source, a
    secret, or the database user of an instance. *)
Inductive Arn : Type :=
| arnText (text : string)
| arnOfSecret (secretName : string)
| arnOfDatabaseUser (instance : nat).

Record PolicyStatement := {
  resources : list Arn;
  actions : list string
}.

Record Role := {
  roleId : string;
  assumedBy : string;
  roleName : string;
  policy : list PolicyStatement
}.

(** The network of the companion stack; nothing of it is looked at. *)
Record Vpc := { vpcId : string }.
Record VpcStack := { vpc : Vpc }.

(** The properties given to [new rds.DatabaseInstance]. *)
Record DatabaseInstanceProps := {
  inVpc : Vpc;
  vpcSubnets : SubnetType;
  engine : string;
  instanceType : string * string;
  credentials : SecretValue * string;
  multiAz : bool;
  allocatedStorage : Z;
  maxAllocatedStorage : Z;
  allowMajorVersionUpgrade : bool;
  autoMinorVersionUpgrade : bool;
  backupRetentionDays : Z;
  deleteAutomatedBackups : bool;
  deletionProtection : bool;
  databaseName : string;
  publiclyAccessible : bool;
  cloudwatchLogsRetention : option Z;
  storageEncrypted : bool;
  monitoringIntervalSeconds : Z;
  parameterGroup : nat
}.

(** The instance: its properties and [connections.securityGroups]. *)
Record DatabaseInstance := {
  instanceId : string;
  instanceProps : DatabaseInstanceProps;
  connectionsSecurityGroups : list nat
}.

(** The CloudFormation resources nested in a proxy. *)
Inductive CfnType : Type := CfnDBProxy | CfnDBProxyTargetGroup.

#[export] Instance CfnType_eq_dec : EqDecision CfnType.
Proof. solve_decision. Defined.

Record CfnResource := {
  cfnType : CfnType;
  propertyOverrides : gmap string string
}.

(** The options given to [addProxy]. *)
Record DatabaseProxyOptions := {
  secrets : list Secret;
  proxyVpc : Vpc;
  role : nat;
  proxySecurityGroups : list nat;
  requireTLS : bool;
  dbProxyName : option string
}.

(** A proxy: the instance it fronts, its options and the resources
    nested in it ([node.children]). *)
Record DatabaseProxy := {
  proxyId : string;
  proxyTarget : nat;
  proxyOptions : DatabaseProxyOptions;
  children : list CfnResource
}.

(** The attribute [proxy.endpoint] of the proxy at a position. *)
Inductive Endpoint : Type := EndpointOf (proxy : nat).

(** Everything declared so far. Constructs are kept in the order they
    are made; a construct that is changed later (a security group, a
    role, a proxy) is referred to by its position. *)
Record Resources := {
  declaredSecrets : list Secret;
  parameterGroups : list ParameterGroup;
  instances : list DatabaseInstance;
  securityGroups : list SecurityGroup;
  roles : list Role;
  proxies : list DatabaseProxy
}.

Definition noResources : Resources :=
  {| declaredSecrets := []; parameterGroups := []; instances := [];
     securityGroups := []; roles := []; proxies := [] |}.

(** The computations of the constructor. *)
Abbreviation C := (SE.M exn Resources).

Definition with_declaredSecrets (f : list Secret → list Secret)
  (r : Resources) : Resources :=
  {| declaredSecrets := f (declaredSecrets r);
     parameterGroups := parameterGroups r; instances := instances r;
     securityGroups := securityGroups r; roles := roles r;
     proxies := proxies r |}.

Definition with_parameterGroups
  (f : list ParameterGroup → list ParameterGroup) (r : Resources)
  : Resources :=
  {| declaredSecrets := declaredSecrets r;
     parameterGroups := f (parameterGroups r); instances := instances r;
     securityGroups := securityGroups r; roles := roles r;
     proxies := proxies r |}.

Definition with_instances
  (f : list DatabaseInstance → list DatabaseInstance) (r : Resources)
  : Resources :=
  {| declaredSecrets := declaredSecrets r;
     parameterGroups := parameterGroups r; instances := f (instances r);
     securityGroups := securityGroups r; roles := roles r;
     proxies := proxies r |}.

Definition with_securityGroups
  (f : list SecurityGroup → list SecurityGroup) (r : Resources)
  : Resources :=
  {| declaredSecrets := declaredSecrets r;
     parameterGroups := parameterGroups r; instances := instances r;
     securityGroups := f (securityGroups r); roles := roles r;
     proxies := proxies r |}.

Definition with_roles (f : list Role → list Role) (r : Resources)
  : Resources :=
  {| declaredSecrets := declaredSecrets r;
     parameterGroups := parameterGroups r; instances := instances r;
     securityGroups := securityGroups r; roles := f (roles r);
     proxies := proxies r |}.

Definition with_proxies (f : list DatabaseProxy → list DatabaseProxy)
  (r : Resources) : Resources :=
  {| declaredSecrets := declaredSecrets r;
     parameterGroups := parameterGroups r; instances := instances r;
     securityGroups := securityGroups r; roles := roles r;
     proxies := f (proxies r) |}.

(** [new secretsmanager.Secret(this, id, props)] *)
Definition new_Secret (id name description : string)
  (removalPolicy : RemovalPolicy)
  (secretObjectValue : list (string * SecretValue)) : C Secret :=
  let s := NewSecret id name description removalPolicy secretObjectValue in
  modify (with_declaredSecrets (λ l, l ++ [s])) ;; mret s.

(** [Secret.fromSecretNameV2(this, id, name)] *)
Definition fromSecretNameV2 (id name : string) : C Secret :=
  let s := ImportedSecret id name in
  modify (with_declaredSecrets (λ l, l ++ [s])) ;; mret s.

(** [new rds.ParameterGroup(this, id, props)]; the result is the
    position of the group. *)
Definition new_ParameterGroup (id engineVersion description : string)
  (params : gmap string string) : C nat :=
  r ← SE.get;
  modify (with_parameterGroups (λ l, l ++
    [{| pgId := id; pgEngineVersion := engineVersion;
        pgDescription := description; parameters := params |}])) ;;
  mret (length (parameterGroups r)).

(** [new rds.DatabaseInstance(this, id, props)]: no security group is
    given in the properties, so the instance makes one of its own,
    which is its [connections.securityGroups]; the credentials are a
    user name without a password, so the instance makes the secret of
    its credentials, under the name given with them. *)
Definition new_DatabaseInstance (id : string)
  (props : DatabaseInstanceProps) : C nat :=
  r ← SE.get;
  let sg := length (securityGroups r) in
  modify (with_securityGroups (λ l, l ++ [{| ingressRules := [] |}])) ;;
  modify (with_declaredSecrets (λ l, l ++
    [DatabaseSecret (id +:+ "/Secret") (credentials props).2
       (credentials props).1])) ;;
  modify (with_instances (λ l, l ++
    [{| instanceId := id; instanceProps := props;
        connectionsSecurityGroups := [sg] |}])) ;;
  mret (length (instances r)).

Definition undefined_property {A} : C A :=
  throw (TypeError "Cannot read properties of undefined").

(** [instance.connections.securityGroups] *)
Definition connections_securityGroups (instance : nat) : C (list nat) :=
  r ← SE.get;
  match instances r !! instance with
  | Some i => mret (connectionsSecurityGroups i)
  | None => undefined_property
  end.

(** [securityGroup.addIngressRule(peer, connection, description)]: a
    rule for a peer and a port that the group already has a rule for is
    skipped. *)
Definition addIngressRule (securityGroup : nat) (p : Peer)
  (c : Port) (description : string) : C unit :=
  r ← SE.get;
  match securityGroups r !! securityGroup with
  | None => undefined_property
  | Some g =>
      if existsb (λ rule, bool_decide (peer rule = p ∧ connection rule = c))
           (ingressRules g)
      then mret ()
      else modify (with_securityGroups (alter (λ g,
             {| ingressRules := ingressRules g ++
                  [{| peer := p; connection := c;
                      ruleDescription := description |}] |}) securityGroup))
  end.

(** [xs.forEach(f)] *)
Fixpoint forEach {A} (xs : list A) (f : A → C unit) : C unit :=
  match xs with
  | [] => mret ()
  | x :: xs' => f x ;; forEach xs' f
  end.

(** [new iam.Role(this, id, props)] *)
Definition new_Role (id principal name : string) : C nat :=
  r ← SE.get;
  modify (with_roles (λ l, l ++
    [{| roleId := id; assumedBy := principal; roleName := name;
        policy := [] |}])) ;;
  mret (length (roles r)).

(** [role.addToPolicy(statement)] *)
Definition addToPolicy (role : nat) (st : PolicyStatement) : C unit :=
  modify (with_roles (alter (λ x,
    {| roleId := roleId x; assumedBy := assumedBy x;
       roleName := roleName x; policy := policy x ++ [st] |}) role)).

(** [secret.grantRead(role)] *)
Definition grantRead (s : Secret) (role : nat) : C unit :=
  addToPolicy role
    {| resources := [arnOfSecret (secretName s)];
       actions := ["secretsmanager:GetSecretValue";
                   "secretsmanager:DescribeSecret"] |}.

(** [instance.connections.allowDefaultPortFrom(proxy, description)]: on
    every security group of the instance, a rule that admits every
    security group of the proxy on the port of the instance. *)
Definition allowDefaultPortFrom (instance : nat) (groups : list nat)
  (description : string) : C unit :=
  own ← connections_securityGroups instance;
  forEach own (λ securityGroup,
    forEach groups (λ other,
      addIngressRule securityGroup (securityGroupId other)
        (tcpEndpointPort instance) description)).

(** [instance.addProxy(id, options)]. The proxy lets its role read each
    of its secrets, has the instance admit its security groups, and
    nests the proxy resource and its target group. *)
Definition addProxy (instance : nat) (id : string)
  (options : DatabaseProxyOptions) : C nat :=
  forEach (secrets options) (λ s, grantRead s (role options)) ;;
  allowDefaultPortFrom instance (proxySecurityGroups options)
    "Allow connections to the database Instance from the Proxy" ;;
  r ← SE.get;
  modify (with_proxies (λ l, l ++
    [{| proxyId := id; proxyTarget := instance; proxyOptions := options;
        children :=
          [ {| cfnType := CfnDBProxy; propertyOverrides := ∅ |};
            {| cfnType := CfnDBProxyTargetGroup;
               propertyOverrides := ∅ |} ] |}])) ;;
  mret (length (proxies r)).

(** [proxy.node.children.find(child => child instanceof T)]: the place
    of the first such child, or [None] for [undefined]. *)
Definition find_child_of_type (proxy : nat) (T : CfnType)
  : C (option (nat * nat)) :=
  r ← SE.get;
  match proxies r !! proxy with
  | Some p =>
      mret ((λ c, (proxy, c.1)) <$>
            list_find (λ c, cfnType c = T) (children p))
  | None => undefined_property
  end.

(** [target.addPropertyOverride(path, value)]; a call on [undefined]
    throws. *)
Definition addPropertyOverride (target : option (nat * nat))
  (path value : string) : C unit :=
  match target with
  | Some (proxy, child) =>
      modify (with_proxies (alter (λ p,
        {| proxyId := proxyId p; proxyTarget := proxyTarget p;
           proxyOptions := proxyOptions p;
           children := alter (λ c,
             {| cfnType := cfnType c;
                propertyOverrides :=
                  <[path := value]> (propertyOverrides c) |})
             child (children p) |}) proxy))
  | None => undefined_property
  end.

(** [instance.grantConnect(role)]: the role may connect as a database
    user of the instance. *)
Definition grantConnect (instance role : nat) : C unit :=
  addToPolicy role
    {| resources := [arnOfDatabaseUser instance];
       actions := ["rds-db:connect"] |}.

(** A value inside a template literal. *)
Definition interpolate (v : option string) : string :=
  default "undefined" v.

(** The public fields of the class. *)
Record DatabaseStack := {
  dbInstance : nat;
  secretPathAdminName : string;
  secretPathUser : Secret;
  secretPathTableCreator : Secret;
  rdsProxyEndpoint : Endpoint;
  rdsProxyEndpointTableCreator : Endpoint;
  rdsProxyEndpointAdmin : Endpoint
}.

(** The constructor. [prefix] is what [tryGetContext('prefix')] gives. *)
Definition constructor (id : string) (prefix : option string)
  (vpcStack : VpcStack) : C DatabaseStack :=
  let resourcePrefix := prefix in
  secret ← fromSecretNameV2 "ImportedSecrets" "QuantumAISecrets";
  let secretPathAdminName_ := "QuantumAI/credentials/rdsDbCredential" in
  let secretPathUserName := "QuantumAI/userCredentials/rdsDbCredential" in
  secretPathUser_ ← new_Secret secretPathUserName secretPathUserName
    "Secrets for clients to connect to RDS" DESTROY
    [("username", unsafePlainText "applicationUsername");
     ("password", unsafePlainText "applicationPassword")];
  let secretPathTableCreator_name :=
    "QuantumAI/userCredentials/TableCreator" in
  secretPathTableCreator_ ← new_Secret secretPathTableCreator_name
    secretPathTableCreator_name
    "Secrets for TableCreator to connect to RDS" DESTROY
    [("username", unsafePlainText "applicationUsername");
     ("password", unsafePlainText "applicationPassword")];
  parameterGroup_ ← new_ParameterGroup "rdsParameterGroup2" "16.3"
    "Empty parameter group" {[ "rds.force_ssl" := "0" ]};
  dbInstance_ ← new_DatabaseInstance "QuantumAI"
    {| inVpc := vpc vpcStack;
       vpcSubnets := PRIVATE_ISOLATED;
       engine := "16.3";
       instanceType := ("BURSTABLE3", "MICRO");
       credentials :=
         (secretValueFromJson (secretName secret) "DB_Username",
          secretPathAdminName_);
       multiAz := true;
       allocatedStorage := 100;
       maxAllocatedStorage := 115;
       allowMajorVersionUpgrade := false;
       autoMinorVersionUpgrade := true;
       backupRetentionDays := 7;
       deleteAutomatedBackups := true;
       deletionProtection := true;
       databaseName := "QuantumAIDatabase";
       publiclyAccessible := false;
       cloudwatchLogsRetention := None;
       storageEncrypted := true;
       monitoringIntervalSeconds := 60;
       parameterGroup := parameterGroup_ |};
  groups ← connections_securityGroups dbInstance_;
  forEach groups (λ securityGroup,
    addIngressRule securityGroup (ipv4 "10.0.0.0/16") (tcp 5432)
      "Postgres Ingress") ;;
  rdsProxyRole ← new_Role "RDSProxyRole" "rds.amazonaws.com"
    (interpolate resourcePrefix +:+ "-RDSProxyRole");
  addToPolicy rdsProxyRole
    {| resources := [arnText "*"]; actions := ["rds-db:connect"] |} ;;
  groups ← connections_securityGroups dbInstance_;
  rdsProxy ← addProxy dbInstance_ (id +:+ "-proxy")
    {| secrets := [secretPathUser_];
       proxyVpc := vpc vpcStack;
       role := rdsProxyRole;
       proxySecurityGroups := groups;
       requireTLS := false;
       dbProxyName :=
         Some (interpolate resourcePrefix +:+ "-" +:+ id +:+ "-proxy") |};
  groups ← connections_securityGroups dbInstance_;
  rdsProxyTableCreator ← addProxy dbInstance_ (id +:+ "+proxy")
    {| secrets := [secretPathTableCreator_];
       proxyVpc := vpc vpcStack;
       role := rdsProxyRole;
       proxySecurityGroups := groups;
       requireTLS := false;
       dbProxyName := None |};
  secretPathAdmin ← fromSecretNameV2 "AdminSecret" secretPathAdminName_;
  groups ← connections_securityGroups dbInstance_;
  rdsProxyAdmin ← addProxy dbInstance_ (id +:+ "-proxy-admin")
    {| secrets := [secretPathAdmin];
       proxyVpc := vpc vpcStack;
       role := rdsProxyRole;
       proxySecurityGroups := groups;
       requireTLS := false;
       dbProxyName := None |};
  targetGroup ← find_child_of_type rdsProxy CfnDBProxyTargetGroup;
  addPropertyOverride targetGroup "TargetGroupName" "default" ;;
  targetGroupTableCreator ←
    find_child_of_type rdsProxyTableCreator CfnDBProxyTargetGroup;
  addPropertyOverride targetGroup "TargetGroupName" "default" ;;
  addPropertyOverride targetGroupTableCreator "TargetGroupName"
    "default" ;;
  grantConnect dbInstance_ rdsProxyRole ;;
  mret {| dbInstance := dbInstance_;
          secretPathAdminName := secretPathAdminName_;
          secretPathUser := secretPathUser_;
          secretPathTableCreator := secretPathTableCreator_;
          rdsProxyEndpoint := EndpointOf rdsProxy;
          rdsProxyEndpointTableCreator := EndpointOf rdsProxyTableCreator;
          rdsProxyEndpointAdmin := EndpointOf rdsProxyAdmin |}.

(** The resources declared by [new DatabaseStack(scope, id, vpcStack)]
    and the object made, or the exception thrown. *)
Definition synth (id : string) (prefix : option string)
  (vpcStack : VpcStack) : (exn + DatabaseStack) * Resources :=
  constructor id prefix vpcStack noResources.

(** The target group nested in a proxy, and the name it is given by
    an override, if any. *)
Definition targetGroupOf (p : DatabaseProxy) : option CfnResource :=
  snd <$> list_find (λ c, cfnType c = CfnDBProxyTargetGroup) (children p).

Definition targetGroupName (p : DatabaseProxy) : option string :=
  targetGroupOf p ≫= λ c, propertyOverrides c !! "TargetGroupName".

(** The proxy an endpoint belongs to. *)
Definition proxyAt (r : Resources) (e : Endpoint) : option DatabaseProxy :=
  match e with EndpointOf i => proxies r !! i end.

End DatabaseStack.

(** ** Sample data *)

Module Samples.
Import AdminAnalytics.

Definition topic (name : string) (messages created deleted : Z)
  : TopicAnalytics :=
  {| topic_name := JS.lit name; user_message_count := messages;
     ai_message_count := messages; average_session_time := 119 # 2;
     total_session_time := 3600; sessions_created := created;
     sessions_deleted := deleted |}.

Definition payload : list TopicAnalytics :=
  [topic "billing" 4 2 1; topic "General" 9 10 3; topic "onboarding" 2 1 0].

Definition signedIn : exn + AuthSession :=
  inr {| tokens := Some {| idToken := JS.lit "token" |} |}.

(** A run in which the server answers 403. *)
Definition forbidden : Env :=
  {| VITE_API_ENDPOINT := JS.lit "https://api.example/";
     fetchAuthSession := signedIn;
     fetch := λ _ _, inr {| ok := false; statusText := JS.lit "Forbidden";
                            json := inl (SyntaxError "Unexpected token") |};
     sortWithNull := λ _, inl (TypeError "Cannot read properties of null") |}.

(** A run in which the server answers with [payload]. *)
Definition answered : Env :=
  {| VITE_API_ENDPOINT := JS.lit "https://api.example/";
     fetchAuthSession := signedIn;
     fetch := λ _ _, inr {| ok := true; statusText := JS.lit "OK";
                            json := inr (Items (Some <$> payload)) |};
     sortWithNull := λ _, inl (TypeError "Cannot read properties of null") |}.

(** A state left by an earlier run. *)
Definition earlier : ViewState :=
  {| value := 0;
     graphData := [{| module := JS.lit "General"; Messages := 5 |}];
     data := [Some (topic "General" 5 1 0)];
     maxMessages := 5; loading := false |}.

End Samples.

Module MoreSamples.
Import AdminAnalytics.

(** A run in which the server answers with an empty array. *)
Definition answeredEmpty : Env :=
  {| VITE_API_ENDPOINT := JS.lit "https://api.example/";
     fetchAuthSession := Samples.signedIn;
     fetch := λ _ _, inr {| ok := true; statusText := JS.lit "OK";
                            json := inr (Items []) |};
     sortWithNull := λ _, inl (TypeError "Cannot read properties of null") |}.

(** A run in which nobody is signed in. *)
Definition signedOut : Env :=
  {| VITE_API_ENDPOINT := JS.lit "https://api.example/";
     fetchAuthSession := inr {| tokens := None |};
     fetch := λ _ _, inl (Rejection "Failed to fetch");
     sortWithNull := λ _, inl (TypeError "Cannot read properties of null") |}.

(** A run in which the server answers with the array [[null]]. *)
Definition answeredNull : Env :=
  {| VITE_API_ENDPOINT := JS.lit "https://api.example/";
     fetchAuthSession := Samples.signedIn;
     fetch := λ _ _, inr {| ok := true; statusText := JS.lit "OK";
                            json := inr (Items [None]) |};
     sortWithNull := λ _, inl (TypeError "Cannot read properties of null") |}.

End MoreSamples.

(* ===================================================================== *)
(** * Part II: lemmas and theorems *)
(* ===================================================================== *)

(** ** Sorting the payload *)

Section SortFacts.
Context {A : Type} (cmp : A → A → Z).

Lemma insert_sorted_perm (x : A) (l : list A) :
  JS.insert_sorted cmp x l ≡ₚ x :: l.
Proof.
  induction l as [|y l IH]; simpl; [done|].
  destruct (0 <? cmp x y); [|done].
  rewrite IH. apply Permutation_swap.
Qed.

Lemma sort_perm (l : list A) : JS.sort cmp l ≡ₚ l.
Proof.
  induction l as [|x l IH]; simpl; [done|].
  rewrite insert_sorted_perm. by f_equiv.
Qed.
End SortFacts.

Module SortedAnalytics.
Import AdminAnalytics.

Lemma compare_General_left a b : isGeneral a → compareTopics a b = -1.
Proof. intros Ha. unfold compareTopics. by rewrite bool_decide_eq_true_2. Qed.

Lemma compare_General_right a b :
  ¬ isGeneral a → isGeneral b → compareTopics a b = 1.
Proof.
  intros Ha Hb. unfold compareTopics.
  rewrite bool_decide_eq_false_2 by done.
  by rewrite bool_decide_eq_true_2.
Qed.

Lemma compare_others a b :
  ¬ isGeneral a → ¬ isGeneral b → compareTopics a b = 0.
Proof.
  intros Ha Hb. unfold compareTopics.
  by rewrite !bool_decide_eq_false_2.
Qed.

(** A "General" record stays in front of whatever follows it. *)
Lemma insert_General x l :
  isGeneral x → JS.insert_sorted compareTopics x l = x :: l.
Proof.
  intros Hx. destruct l as [|y l]; simpl; [done|].
  by rewrite compare_General_left.
Qed.

(** Another record passes the "General" records and stops there. *)
Lemma insert_other x gs ns :
  ¬ isGeneral x → Forall isGeneral gs → Forall (λ r, ¬ isGeneral r) ns →
  JS.insert_sorted compareTopics x (gs ++ ns) = gs ++ x :: ns.
Proof.
  intros Hx Hgs Hns. induction Hgs as [|g gs Hg _ IH]; simpl.
  - destruct Hns as [|n ns Hn _]; simpl; [done|].
    by rewrite compare_others.
  - rewrite compare_General_right by done. simpl. by rewrite IH.
Qed.

(** The sorted list: the "General" records, then the others, each
    group in the order of the input. *)
Lemma sorted_partition l :
  sortedAnalyticsData l =
  filter isGeneral l ++ filter (λ r, ¬ isGeneral r) l.
Proof.
  unfold sortedAnalyticsData.
  induction l as [|x l IH]; simpl; [done|]. rewrite IH.
  destruct (decide (isGeneral x)) as [Hx|Hx].
  - rewrite insert_General by done.
    rewrite filter_cons_True by done.
    rewrite (filter_cons_False (λ r, ¬ isGeneral r)) by tauto. done.
  - rewrite insert_other; [|done| |].
    + rewrite filter_cons_False by done.
      by rewrite (filter_cons_True (λ r, ¬ isGeneral r)).
    + apply Forall_forall. intros y Hy.
      by apply list_elem_of_filter in Hy as [? _].
    + apply Forall_forall. intros y Hy.
      by apply list_elem_of_filter in Hy as [? _].
Qed.

(** C1. When exactly one record of the payload is named "General"
    (the records named "General" are the one record [g]), the sorted
    list starts with that record, and the sorted list is a permutation
    of the payload: no record is lost or repeated. *)
Theorem sorted_General_first (l : list TopicAnalytics) (g : TopicAnalytics)
  (Hone : filter (λ r, topic_name r = General) l = [g]) :
  head (sortedAnalyticsData l) = Some g ∧ sortedAnalyticsData l ≡ₚ l.
Proof.
  split.
  - rewrite sorted_partition. unfold isGeneral. by rewrite Hone.
  - apply sort_perm.
Qed.

Lemma sorted_General_first_witness :
  head (sortedAnalyticsData Samples.payload) = Some (Samples.topic "General" 9 10 3)
  ∧ sortedAnalyticsData Samples.payload ≡ₚ Samples.payload.
Proof. apply (sorted_General_first Samples.payload). reflexivity. Defined.

(** X20. The same holds for every sorting procedure: a rearrangement of the
    payload that puts [a] before [b] whenever the comparator says
    [a < b] starts with the "General" record. *)
Lemma any_order_General_first (l out : list TopicAnalytics) g :
  out ≡ₚ l →
  filter (λ r, topic_name r = General) l = [g] →
  (∀ i j a b, out !! i = Some a → out !! j = Some b → i ≠ j →
              compareTopics a b < 0 → (i < j)%nat) →
  head out = Some g.
Proof.
  intros Hperm Hone Hord.
  assert (Hg : g ∈ filter (λ r, topic_name r = General) l)
    by (rewrite Hone; apply list_elem_of_here).
  apply list_elem_of_filter in Hg as [Hname Hin].
  rewrite <- Hperm in Hin.
  apply list_elem_of_lookup in Hin as [i Hi].
  destruct i as [|i]; [by destruct out|].
  destruct out as [|a out]; [done|].
  exfalso. specialize (Hord (S i) 0%nat g a Hi eq_refl).
  rewrite compare_General_left in Hord by done. lia.
Qed.

Lemma any_order_General_first_witness :
  head [Samples.topic "General" 9 10 3; Samples.topic "onboarding" 2 1 0;
        Samples.topic "billing" 4 2 1]
  = Some (Samples.topic "General" 9 10 3).
Proof.
  apply (any_order_General_first Samples.payload).
  - exact (Permutation_app_comm
             [Samples.topic "General" 9 10 3; Samples.topic "onboarding" 2 1 0]
             [Samples.topic "billing" 4 2 1]).
  - reflexivity.
  - intros i j a b Hi Hj Hne Hcmp.
    destruct i as [|[|[|i]]]; destruct j as [|[|[|j]]];
      simpl in Hi, Hj; try discriminate; try lia;
      injection Hi as <-; injection Hj as <-; vm_compute in Hcmp;
      discriminate.
Defined.

(** *** Further facts about the sort *)

Lemma filter_none_keeps_all (l : list TopicAnalytics) :
  filter isGeneral l = [] → filter (λ r, ¬ isGeneral r) l = l.
Proof.
  induction l as [|x l IH]; [done|].
  destruct (decide (isGeneral x)) as [Hx|Hx].
  - by rewrite filter_cons_True.
  - rewrite filter_cons_False by done. intros Hnil.
    rewrite filter_cons_True by done. by rewrite IH.
Qed.

(** X1. With at most one record named "General" (then the comparator
    orders the records consistently), the sort is stable: the other
    records follow the "General" record in the order of the payload;
    with no such record the payload is left as it is. *)
Theorem sorted_keeps_order (l : list TopicAnalytics)
  (Hmost : (length (filter (λ r, topic_name r = General) l) ≤ 1)%nat) :
  sortedAnalyticsData l =
    filter (λ r, topic_name r = General) l ++
    filter (λ r, topic_name r ≠ General) l
  ∧ (filter (λ r, topic_name r = General) l = [] →
     sortedAnalyticsData l = l).
Proof.
  split; [apply sorted_partition|].
  intros Hnone. rewrite sorted_partition. unfold isGeneral. rewrite Hnone.
  by apply filter_none_keeps_all.
Qed.

Lemma sorted_keeps_order_witness :
  sortedAnalyticsData Samples.payload =
    [Samples.topic "General" 9 10 3; Samples.topic "billing" 4 2 1;
     Samples.topic "onboarding" 2 1 0].
Proof.
  destruct (sorted_keeps_order Samples.payload) as [Heq _].
  - vm_compute. lia.
  - rewrite Heq. reflexivity.
Defined.

(** X2. The comparator is antisymmetric on two records that are not
    both named "General"; on two records that are both named "General"
    it answers -1 in both directions, so it does not order them. *)
Theorem compareTopics_symmetry (a b : TopicAnalytics) :
  (¬ (topic_name a = General ∧ topic_name b = General) →
     compareTopics b a = - compareTopics a b)
  ∧ (topic_name a = General → topic_name b = General →
     compareTopics a b = -1 ∧ compareTopics b a = -1).
Proof.
  split.
  - intros Hnot.
    destruct (decide (isGeneral a)) as [Ha|Ha];
      destruct (decide (isGeneral b)) as [Hb|Hb].
    + by destruct Hnot.
    + by rewrite (compare_General_left a b), (compare_General_right b a).
    + by rewrite (compare_General_left b a), (compare_General_right a b).
    + by rewrite !compare_others.
  - intros Ha Hb. by rewrite !compare_General_left.
Qed.

Lemma compareTopics_symmetry_witness :
  compareTopics (Samples.topic "billing" 4 2 1)
                (Samples.topic "General" 9 10 3) = 1
  ∧ compareTopics (Samples.topic "General" 9 10 3)
                  (Samples.topic "General" 5 1 0) = -1
  ∧ compareTopics (Samples.topic "General" 5 1 0)
                  (Samples.topic "General" 9 10 3) = -1.
Proof.
  split.
  - destruct (compareTopics_symmetry (Samples.topic "General" 9 10 3)
                (Samples.topic "billing" 4 2 1)) as [Hanti _].
    rewrite Hanti; [reflexivity|]. intros [_ Hb]. discriminate Hb.
  - by apply (compareTopics_symmetry (Samples.topic "General" 9 10 3)
                (Samples.topic "General" 5 1 0)).
Defined.

End SortedAnalytics.

(** ** The chart data *)

Module ChartData.
Import AdminAnalytics.

(** C7. The chart data has the length of the sorted list, and its
    i-th point carries the name of the i-th record as [module] and its
    count of user messages as [Messages]. *)
Theorem graphData_parallel (sorted : list TopicAnalytics) (i : nat) :
  length (graphDataFormatted sorted) = length sorted ∧
  graphDataFormatted sorted !! i =
    (λ topic, {| module := topic_name topic;
                 Messages := user_message_count topic |}) <$> sorted !! i.
Proof.
  unfold graphDataFormatted. split.
  - apply length_fmap.
  - apply list_lookup_fmap.
Qed.

End ChartData.

(** ** Formatting *)

Module Formatting.
Import AdminAnalytics.

(** *** The rounded quotient by 60 *)

Lemma round_half_even_near (a b : Z) :
  0 < b → - b ≤ 2 * (b * JS.round_half_even a b - a) ≤ b.
Proof.
  intros Hb. unfold JS.round_half_even.
  pose proof (Z.div_mod a b ltac:(lia)) as Hdiv.
  pose proof (Z.mod_pos_bound a b Hb) as Hmod.
  set (q := a / b) in *. set (r := a mod b) in *.
  destruct (Z.ltb_spec (2 * r) b); [nia|].
  destruct (Z.ltb_spec b (2 * r)); [nia|].
  destruct (Z.even q); nia.
Qed.

Lemma binade_le (n d : Z) : JS.binade n d ≤ Z.log2 n - Z.log2 d.
Proof.
  unfold JS.binade. cbv zeta.
  repeat match goal with |- context [if ?b then _ else _] => destruct b end;
    lia.
Qed.

(** Where the double nearest to [a / (60 * 2^j)] lies, for [a] below
    2^53: it is a fraction [m / 2^k] between the whole part [K] of the
    exact quotient and [K + 1], equal to [K] when the division is exact
    and above [K] when it is not. The rounding moves the quotient by at
    most 2^-(j+6), less than the distance 2^-j / 60 to the next whole
    number. *)
Lemma nearest_double_div_60 (a : Z) (p : positive) (j : Z) :
  0 < a < 2 ^ 53 → 0 ≤ j ≤ 1069 → Z.pos p = 2 ^ j →
  ∃ m k : Z,
    0 ≤ k ∧
    JS.nearest_double_pos a (p * 60) = Qmake m (Z.to_pos (2 ^ k)) ∧
    (a / (60 * 2 ^ j)) * 2 ^ k ≤ m < (a / (60 * 2 ^ j) + 1) * 2 ^ k ∧
    (a mod (60 * 2 ^ j) = 0 → m = (a / (60 * 2 ^ j)) * 2 ^ k) ∧
    (a mod (60 * 2 ^ j) ≠ 0 → (a / (60 * 2 ^ j)) * 2 ^ k < m).
Proof.
  intros Ha Hj Hp. unfold JS.nearest_double_pos.
  set (d := Z.pos (p * 60)).
  assert (d = 60 * 2 ^ j) as Hd by (unfold d; rewrite Pos2Z.inj_mul; lia).
  assert (Z.log2 d = j + 5) as Hlog.
  { rewrite Hd, Z.log2_mul_pow2 by lia. reflexivity. }
  assert (Z.log2 a ≤ 52) as Hloga.
  { assert (Z.log2 a < 53); [|lia]. apply Z.log2_lt_pow2; lia. }
  pose proof (binade_le a d) as Hb.
  set (e := Z.max (JS.binade a d - 52) (-1074)).
  assert (e ≤ - (j + 5)) as He by lia.
  assert (-1074 ≤ e) as He' by lia.
  destruct (Z.leb_spec 0 e); [lia|].
  set (k := - e). exists (JS.round_half_even (a * 2 ^ k) d), k.
  split; [lia|]. split; [reflexivity|].
  pose proof (round_half_even_near (a * 2 ^ k) d ltac:(lia)) as Hnear.
  set (m := JS.round_half_even (a * 2 ^ k) d) in *.
  assert (32 * 2 ^ j ≤ 2 ^ k) as Hk.
  { change 32 with (2 ^ 5). rewrite <- Z.pow_add_r by lia.
    apply Z.pow_le_mono_r; lia. }
  assert (0 < 2 ^ j) as Hpj by (apply Z.pow_pos_nonneg; lia).
  rewrite <- Hd.
  pose proof (Z.div_mod a d ltac:(lia)) as Hdiv.
  pose proof (Z.mod_pos_bound a d ltac:(lia)) as Hmod.
  set (K := a / d) in *. set (r := a mod d) in *.
  set (P := 2 ^ k) in *.
  assert (0 ≤ r * P ≤ (d - 1) * P) as HrP by nia.
  assert (a * P = d * (K * P) + r * P) as HaP by nia.
  assert (K * P ≤ m) as Hlow.
  { assert (d * (2 * (K * P) - 1) ≤ d * (2 * m)) as H1 by nia.
    apply Z.mul_le_mono_pos_l in H1; lia. }
  split; [split; [exact Hlow|]|split].
  - assert (d * (2 * m) < d * (2 * ((K + 1) * P))) as H1 by nia.
    apply Z.mul_lt_mono_pos_l in H1; lia.
  - intros Hr. rewrite Hr in *.
    assert (d * (2 * m) ≤ d * (2 * (K * P) + 1)) as H1 by nia.
    apply Z.mul_le_mono_pos_l in H1; lia.
  - intros Hr. assert (1 * P ≤ r * P) as HrP' by nia.
    assert (d * (2 * (K * P)) < d * (2 * m)) as H1 by nia.
    apply Z.mul_lt_mono_pos_l in H1; lia.
Qed.

Lemma div_60_fraction (a : Z) (p : positive) :
  ((a # p) / 60)%Q = (a # p * 60).
Proof. unfold Qdiv, Qmult, Qinv. simpl. by rewrite Z.mul_1_r. Qed.

Lemma floor_fraction (m k : Z) :
  0 ≤ k → Qfloor (m # Z.to_pos (2 ^ k)) = m / 2 ^ k.
Proof.
  intros Hk. unfold Qfloor. rewrite Z2Pos.id; [done|].
  by apply Z.pow_pos_nonneg.
Qed.

(** [Math.floor(x / 60)] for a double [x = a / 2^j] that is not
    negative and below 2^53 is the whole part of the exact quotient. *)
Lemma floor_div_60_double (a : Z) (p : positive) (j : Z) :
  0 ≤ a < 2 ^ 53 → 0 ≤ j ≤ 1069 → Z.pos p = 2 ^ j →
  JS.Math_floor (JS.div (a # p) 60) = a / (60 * 2 ^ j).
Proof.
  intros Ha Hj Hp. unfold JS.Math_floor, JS.div.
  rewrite div_60_fraction. unfold JS.nearest_double. simpl Qnum. simpl Qden.
  destruct a as [|a|a]; [by rewrite Z.div_0_l by lia| |lia].
  destruct (nearest_double_div_60 (Z.pos a) p j) as (m & k & Hk & -> & Hm & _);
    [lia..|].
  rewrite floor_fraction by done.
  symmetry. apply Z.div_unique with (r := m - 2 ^ k * (Z.pos a / (60 * 2 ^ j)));
    lia.
Qed.

Lemma floor_div_60 (s : Z) :
  0 ≤ s < 2 ^ 53 → JS.Math_floor (JS.div (inject_Z s) 60) = s / 60.
Proof.
  intros Hs. unfold inject_Z.
  rewrite (floor_div_60_double s 1 0) by (done || lia).
  by rewrite Z.mul_1_r.
Qed.

(** The same for a negative whole number above -2^53. *)
Lemma floor_div_60_negative (s : Z) :
  - 2 ^ 53 < s < 0 → JS.Math_floor (JS.div (inject_Z s) 60) = s / 60.
Proof.
  intros Hs. unfold JS.Math_floor, JS.div, inject_Z.
  rewrite div_60_fraction. unfold JS.nearest_double. simpl Qnum. simpl Qden.
  destruct s as [|a|a]; [lia|lia|].
  destruct (nearest_double_div_60 (Z.pos a) 1 0)
    as (m & k & Hk & -> & Hm & Hexact & Hstrict); [lia..|].
  change (- (m # Z.to_pos (2 ^ k)))%Q with (- m # Z.to_pos (2 ^ k)).
  rewrite floor_fraction by done.
  change (60 * 2 ^ 0) with 60 in *.
  assert (0 < 2 ^ k) as HP by (by apply Z.pow_pos_nonneg).
  pose proof (Z.div_mod (Z.pos a) 60 ltac:(lia)) as Hdiv.
  pose proof (Z.mod_pos_bound (Z.pos a) 60 ltac:(lia)) as Hmod.
  set (K := Z.pos a / 60) in *. set (r := Z.pos a mod 60) in *.
  destruct (decide (r = 0)) as [Hr|Hr].
  - rewrite (Hexact Hr).
    transitivity (- K).
    + symmetry. apply Z.div_unique with (r := 0); lia.
    + apply Z.div_unique with (r := 0); lia.
  - specialize (Hstrict Hr).
    transitivity (- K - 1).
    + symmetry.
      apply Z.div_unique with (r := - m - 2 ^ k * (- K - 1)); lia.
    + apply Z.div_unique with (r := 60 - r); lia.
Qed.

(** The other arithmetic step of [formatTime] on a whole number. *)
Lemma round_inject (x : Q) (k : Z) :
  (x == inject_Z k)%Q → JS.Math_round x = k.
Proof.
  intros Hx. unfold JS.Math_round. rewrite Hx.
  unfold Qfloor, Qplus, inject_Z. simpl.
  symmetry. apply (Z.div_unique _ _ _ 1); lia.
Qed.

Lemma rem_60 (s : Z) :
  0 ≤ s → (JS.rem (inject_Z s) 60 == inject_Z (s mod 60))%Q.
Proof.
  intros Hs. unfold JS.rem, JS.trunc, Qdiv, Qmult, Qinv, inject_Z. simpl.
  rewrite Z.mul_1_r, Z.quot_div_nonneg by lia.
  unfold Qeq, Qminus, Qplus, Qopp, Qmult. simpl.
  change (Z.pos (1 * 60)) with 60.
  rewrite (Z.mod_eq s 60) by lia. lia.
Qed.

(** C2, as the code has it. For a whole number [s] of seconds that is
    not negative and is below 2^53 (the whole numbers that a number of
    the language holds without gaps), [formatTime s] is the text of
    [s / 60] (rounded down), "m ", the text of [s mod 60] and "s"; and
    [formatTime 65] is "1m 5s", [formatTime 3600] is "60m 0s",
    [formatTime 125] is "2m 5s". *)
Theorem formatTime_whole_seconds (s : Z) (Hs : 0 ≤ s < 2 ^ 53) :
  formatTime (inject_Z s) =
    JS.Number_toString (s / 60) ++ JS.lit "m " ++
    JS.Number_toString (s mod 60) ++ JS.lit "s"
  ∧ formatTime 65 = JS.lit "1m 5s"
  ∧ formatTime 3600 = JS.lit "60m 0s"
  ∧ formatTime 125 = JS.lit "2m 5s".
Proof.
  split; [|by vm_compute].
  unfold formatTime, minutes_seconds.
  rewrite floor_div_60 by done.
  by rewrite (round_inject _ (s mod 60)) by (apply rem_60; lia).
Qed.

Lemma formatTime_whole_seconds_witness :
  formatTime (inject_Z 754) = JS.lit "12m 34s".
Proof.
  destruct (formatTime_whole_seconds 754) as [H _]; [lia|].
  rewrite H. reflexivity.
Defined.

(** The claim as it is written, for every whole number that is not
    negative, fails: 70709151474384896 (a number that a double holds)
    divided by 60 is 1178485857906414.93..., the nearest double is
    1178485857906415, and that is the number of minutes shown, one more
    than the quotient rounded down. *)
Lemma formatTime_whole_seconds_counterexample :
  ¬ (∀ s : Z, 0 ≤ s →
       formatTime (inject_Z s) =
         JS.Number_toString (s / 60) ++ JS.lit "m " ++
         JS.Number_toString (s mod 60) ++ JS.lit "s").
Proof.
  intros Hall. specialize (Hall 70709151474384896 ltac:(lia)).
  vm_compute in Hall. discriminate Hall.
Qed.

(** C9. There are inputs that are not negative and not whole for which
    the seconds shown are 60: [formatTime 59.5] is "0m 60s" and
    [formatTime 119.5] is "1m 60s". The minutes are taken from the
    input, the seconds are rounded afterwards. *)
Theorem formatTime_sixty_seconds :
  formatTime (119 # 2) = JS.lit "0m 60s"
  ∧ formatTime (239 # 2) = JS.lit "1m 60s"
  ∧ JS.Math_floor ((239 # 2) / 60) = 1
  ∧ JS.Math_round (JS.rem (239 # 2) 60) = 60
  ∧ ∃ q : Q, (0 <= q)%Q ∧ (∀ z : Z, ¬ (q == inject_Z z)%Q) ∧
      ∃ m : Z, formatTime q = minutes_seconds m 60.
Proof.
  repeat split; try by vm_compute.
  exists (119 # 2). repeat split.
  - by vm_compute.
  - intros z. unfold Qeq, inject_Z. simpl. lia.
  - by exists 0.
Qed.


(** *** Further facts about [formatTime] *)

Lemma rem_60_any_sign (s : Z) :
  (JS.rem (inject_Z s) 60 == inject_Z (Z.rem s 60))%Q.
Proof.
  unfold JS.rem, JS.trunc, Qdiv, Qmult, Qinv, inject_Z. simpl.
  rewrite Z.mul_1_r.
  unfold Qeq, Qminus, Qplus, Qopp, Qmult. simpl.
  change (Z.pos (1 * 60)) with 60.
  pose proof (Z.quot_rem' s 60). lia.
Qed.

(** X3. For a whole number [s] of seconds of either sign and of
    magnitude below 2^53, [formatTime] shows [s / 60] rounded down and
    the remainder with the sign of [s]. When [s] is not negative the
    seconds lie in 0..59 and minutes and seconds add up to [s]; when
    [s] is negative and not a multiple of 60 the seconds are negative
    and the two add up to [s - 60]. *)
Theorem formatTime_whole_any_sign (s : Z) (Hs : - 2 ^ 53 < s < 2 ^ 53) :
  formatTime (inject_Z s) = minutes_seconds (s / 60) (Z.rem s 60)
  ∧ (0 ≤ s →
     0 ≤ Z.rem s 60 < 60 ∧ 60 * (s / 60) + Z.rem s 60 = s)
  ∧ (s < 0 → s mod 60 ≠ 0 →
     -60 < Z.rem s 60 < 0 ∧ 60 * (s / 60) + Z.rem s 60 = s - 60).
Proof.
  split; [|split].
  - unfold formatTime.
    rewrite (round_inject _ (Z.rem s 60)) by apply rem_60_any_sign.
    destruct (decide (0 ≤ s)).
    + by rewrite floor_div_60 by lia.
    + by rewrite floor_div_60_negative by lia.
  - intros Hs'. rewrite Z.rem_mod_nonneg by lia.
    pose proof (Z.mod_pos_bound s 60). pose proof (Z.div_mod s 60). lia.
  - intros Hs' Hmod.
    pose proof (Z.quot_rem' s 60). pose proof (Z.rem_bound_neg_pos s 60).
    pose proof (Z.mod_pos_bound s 60). pose proof (Z.div_mod s 60).
    assert (Z.rem s 60 = s mod 60 - 60) as Hrem; [|lia].
    assert (Z.rem (-s) 60 = (-s) mod 60) as Hpos
      by (apply Z.rem_mod_nonneg; lia).
    rewrite Z.rem_opp_l in Hpos by lia.
    pose proof (Z.mod_pos_bound (-s) 60) as Hb.
    pose proof (Z.div_mod (-s) 60) as Hd.
    assert (((-s) mod 60 + s mod 60) mod 60 = 0) as Hsum.
    { rewrite <- Z.add_mod by lia. by replace (- s + s) with 0 by lia. }
    assert ((-s) mod 60 + s mod 60 = 60) as Hsixty; [|lia].
    apply Z.mod_divide in Hsum as [k Hk]; lia.
Qed.

Lemma formatTime_whole_any_sign_witness :
  formatTime (inject_Z (-30)) = JS.lit "-1m -30s"
  ∧ 60 * (-30 / 60) + Z.rem (-30) 60 = -30 - 60.
Proof.
  destruct (formatTime_whole_any_sign (-30)) as (Heq & _ & Hneg); [lia|].
  split; [by rewrite Heq|]. by apply Hneg.
Defined.

(** For an input that is not negative, truncation is rounding down. *)
Lemma trunc_floor_div_60 (q : Q) :
  (0 <= q)%Q → JS.trunc (q / 60) = JS.Math_floor (q / 60).
Proof.
  intros Hq. unfold JS.trunc, JS.Math_floor, Qfloor.
  destruct q as [n d]. unfold Qdiv, Qmult, Qinv. simpl.
  apply Z.quot_div_nonneg; [|lia].
  unfold Qle in Hq. simpl in Hq. lia.
Qed.

(** X4. For every number of seconds that is a double, not negative and
    below 2^53 (a fraction [a / 2^j] with [a] below 2^53 and [j] up to
    1069), whole or not, the minutes shown are not negative, the seconds
    shown lie in 0..60, and minutes and seconds together are within half
    a second of the input. *)
Theorem formatTime_within_half_second (q : Q) (j : Z)
  (Hnum : 0 ≤ Qnum q < 2 ^ 53) (Hj : 0 ≤ j ≤ 1069)
  (Hden : Z.pos (Qden q) = 2 ^ j) :
  ∃ m r : Z,
    formatTime q = minutes_seconds m r
    ∧ 0 ≤ m ∧ 0 ≤ r ≤ 60
    ∧ (inject_Z (60 * m + r) - q <= 1 # 2)%Q
    ∧ (q - inject_Z (60 * m + r) <= 1 # 2)%Q.
Proof.
  assert (0 <= q)%Q as Hq by (unfold Qle; simpl; lia).
  exists (JS.Math_floor (JS.div q 60)), (JS.Math_round (JS.rem q 60)).
  split; [reflexivity|].
  assert (JS.Math_floor (JS.div q 60) = Qfloor (q / 60)) as ->.
  { destruct q as [a p]. simpl in Hnum, Hden.
    rewrite (floor_div_60_double a p j) by done.
    rewrite div_60_fraction. unfold Qfloor.
    rewrite Pos2Z.inj_mul, Hden. f_equal. lia. }
  unfold JS.rem. rewrite trunc_floor_div_60 by done.
  unfold JS.Math_round, JS.Math_floor.
  assert (q == 60 * (q / 60))%Q as Hdiv by field.
  set (y := (q / 60)%Q) in *.
  set (m := Qfloor y).
  set (x := (q - 60 * inject_Z m)%Q).
  set (r := Qfloor (x + (1 # 2))).
  pose proof (Qfloor_le y) as Hm1.
  pose proof (Qlt_floor y) as Hm2.
  pose proof (Qfloor_le (x + (1 # 2))) as Hr1.
  pose proof (Qlt_floor (x + (1 # 2))) as Hr2.
  fold m in Hm1, Hm2. fold r in Hr1, Hr2.
  rewrite inject_Z_plus in Hm2, Hr2.
  change (inject_Z 1) with 1%Q in Hm2, Hr2.
  assert (0 <= x /\ x < 60)%Q as [Hx1 Hx2] by (unfold x; split; lra).
  assert (-1 < inject_Z m)%Q as Hm by lra.
  assert (-1 < inject_Z r /\ inject_Z r < 61)%Q as [Hr3 Hr4] by (split; lra).
  change (-1)%Q with (inject_Z (-1)) in Hm, Hr3.
  change 61%Q with (inject_Z 61) in Hr4.
  rewrite <- Zlt_Qlt in Hm, Hr3, Hr4.
  split; [lia|]. split; [lia|].
  rewrite inject_Z_plus, inject_Z_mult. change (inject_Z 60) with 60%Q.
  unfold x in *. split; lra.
Qed.

Lemma formatTime_within_half_second_witness :
  ∃ m r : Z,
    formatTime (239 # 2) = minutes_seconds m r
    ∧ 0 ≤ m ∧ 0 ≤ r ≤ 60
    ∧ (inject_Z (60 * m + r) - (239 # 2) <= 1 # 2)%Q
    ∧ ((239 # 2) - inject_Z (60 * m + r) <= 1 # 2)%Q.
Proof.
  apply (formatTime_within_half_second (239 # 2) 1); [simpl; lia|lia|done].
Defined.

(** A negative number is written with a minus sign in front. *)
Lemma Number_toString_negative (z : Z) :
  z < 0 → ∃ digits, JS.Number_toString z = 45%N :: digits.
Proof.
  destruct z as [|p|p]; [lia|lia|]. intros _.
  unfold JS.Number_toString, JS.lit. simpl. by eexists.
Qed.

(** X5. The number under "Active Sessions" is not cut off at zero: for
    a record with more sessions deleted than created the text shown
    starts with a minus sign. *)
Theorem active_sessions_negative `{JS.Casing} (index : nat)
  (topic : TopicAnalytics)
  (Hmore : sessions_created topic < sessions_deleted topic) :
  ∃ digits,
    shown (JS.lit "Active Sessions") (accordion index topic) =
      Some (45%N :: digits).
Proof.
  destruct (Number_toString_negative (activeSessions topic)) as [digits Hd].
  { unfold activeSessions. lia. }
  exists digits. rewrite <- Hd. reflexivity.
Qed.

Lemma active_sessions_negative_witness :
  ∃ digits,
    shown (JS.lit "Active Sessions")
      (accordion (H := JS.toUpperCase_latin1) 0
         (Samples.topic "billing" 4 2 5)) =
      Some (45%N :: digits).
Proof.
  apply (active_sessions_negative (H := JS.toUpperCase_latin1)).
  simpl. lia.
Defined.


End Formatting.

(** ** Splitting and joining *)

Section SplitJoin.
Variable sep : N.

Lemma split_not_nil (s : JS.str) : JS.split sep s ≠ [].
Proof.
  destruct s as [|c r]; simpl; [done|].
  destruct (N.eqb c sep); [done|]. by destruct (JS.split sep r).
Qed.

Lemma split_pieces_no_sep (s : JS.str) :
  Forall (λ w, sep ∉ w) (JS.split sep s).
Proof.
  induction s as [|c r IH]; simpl.
  - constructor; [apply not_elem_of_nil|constructor].
  - destruct (N.eqb_spec c sep) as [->|Hc].
    + constructor; [apply not_elem_of_nil|done].
    + destruct (JS.split sep r) as [|w ws]; simpl.
      * repeat constructor. by intros ->%list_elem_of_singleton.
      * apply Forall_cons in IH as [Hw Hws]. constructor; [|done].
        intros [->|?]%elem_of_cons; done.
Qed.

Lemma split_piece_sep (w r : JS.str) :
  sep ∉ w → JS.split sep (w ++ sep :: r) = w :: JS.split sep r.
Proof.
  induction w as [|c w IH]; intros Hw; simpl.
  - by rewrite N.eqb_refl.
  - apply not_elem_of_cons in Hw as [Hc Hw].
    destruct (N.eqb_spec c sep) as [->|_]; [done|]. by rewrite IH.
Qed.

Lemma split_one_piece (w : JS.str) : sep ∉ w → JS.split sep w = [w].
Proof.
  induction w as [|c w IH]; intros Hw; simpl; [done|].
  apply not_elem_of_cons in Hw as [Hc Hw].
  destruct (N.eqb_spec c sep) as [->|_]; [done|]. by rewrite IH.
Qed.

Lemma split_join (ws : list JS.str) :
  ws ≠ [] → Forall (λ w, sep ∉ w) ws → JS.split sep (JS.join sep ws) = ws.
Proof.
  intros Hne Hall. induction Hall as [|w ws Hw Hws IH]; [done|].
  destruct ws as [|w' ws]; simpl.
  - by apply split_one_piece.
  - rewrite split_piece_sep by done. f_equal. by apply IH.
Qed.

Lemma join_split (s : JS.str) : JS.join sep (JS.split sep s) = s.
Proof.
  induction s as [|c r IH]; simpl; [done|].
  destruct (N.eqb_spec c sep) as [->|Hc].
  - pose proof (split_not_nil r).
    destruct (JS.split sep r) as [|w ws]; [done|]. simpl in *. by rewrite IH.
  - pose proof (split_not_nil r).
    destruct (JS.split sep r) as [|w ws]; [done|].
    destruct ws; simpl in *; by rewrite <- IH.
Qed.

Lemma length_join_fmap (f : JS.str → JS.str) (ws : list JS.str) :
  Forall (λ w, length (f w) = length w) ws →
  length (JS.join sep (f <$> ws)) = length (JS.join sep ws).
Proof.
  induction 1 as [|w ws Hw Hws IH]; [done|].
  destruct ws as [|w' ws]; simpl in *; [done|].
  rewrite !length_app. simpl. by rewrite Hw, IH.
Qed.
End SplitJoin.

(** ** Title case *)

Module TitleCase.
Import AdminAnalytics.

(** The Latin-1 table makes no space out of other characters. *)
Lemma latin1_no_space (w : JS.str) :
  space ∉ w → space ∉ JS.toUpperCase_latin1 w.
Proof.
  unfold JS.toUpperCase_latin1, space. intros Hw Hin.
  apply list_elem_of_bind in Hin as (c & Hin & Hc).
  assert (c ≠ 32%N) as Hne by (by intros ->).
  unfold JS.upper_unit in Hin.
  repeat match type of Hin with
  | context [(?a <=? ?b)%N] => destruct (N.leb_spec a b)
  | context [(?a =? ?b)%N] => destruct (N.eqb_spec a b)
  end; simpl in Hin;
  repeat (apply elem_of_cons in Hin as [Hin|Hin]);
  try (by apply elem_of_nil in Hin); lia.
Qed.

Section Casing.
Context `{JS.Casing}.
Hypothesis upper_empty : JS.toUpperCase [] = [].
Hypothesis upper_no_space : ∀ w, space ∉ w → space ∉ JS.toUpperCase w.

Lemma capitalize_cons c r : capitalize (c :: r) = JS.toUpperCase [c] ++ r.
Proof. done. Qed.

Lemma capitalize_nil : capitalize [] = [].
Proof.
  unfold capitalize. change (JS.charAt0 []) with (@nil N).
  by rewrite upper_empty.
Qed.

Lemma capitalize_no_space w : space ∉ w → space ∉ capitalize w.
Proof.
  intros Hw. destruct w as [|c r].
  - rewrite capitalize_nil. apply not_elem_of_nil.
  - rewrite capitalize_cons. apply not_elem_of_cons in Hw as [Hc Hr].
    apply not_elem_of_app. split; [|done].
    apply upper_no_space. by intros Hs%list_elem_of_singleton.
Qed.

(** The words of the result are the capitalized words of the input. *)
Lemma split_titleCase s :
  JS.split space (JS.join space (capitalize <$> JS.split space s)) =
  capitalize <$> JS.split space s.
Proof.
  apply split_join.
  - intros Hnil%fmap_nil_inv. by apply split_not_nil in Hnil.
  - apply Forall_fmap. eapply Forall_impl; [apply split_pieces_no_sep|].
    intros w Hw. by apply capitalize_no_space.
Qed.
End Casing.

(** C3, as the code has it. For a string [s], [titleCase s] is a
    string [t] with as many space-separated words as [s]; an empty word
    stays empty, and a word [c :: r] becomes the upper-case form of
    [c] followed by [r] unchanged. The upper-case form of one character
    may be longer than one character, so the number of characters is
    kept when every first character has an upper-case form of one
    character, and not always. *)
Theorem titleCase_words `{JS.Casing}
  (upper_empty : JS.toUpperCase [] = [])
  (upper_no_space : ∀ w, space ∉ w → space ∉ JS.toUpperCase w)
  (s : JS.str) :
  ∃ t : JS.str,
    titleCase (JS.VString s) = JS.VString t
    ∧ length (JS.split space t) = length (JS.split space s)
    ∧ (∀ i, JS.split space s !! i = Some [] →
            JS.split space t !! i = Some [])
    ∧ (∀ i c r, JS.split space s !! i = Some (c :: r) →
                JS.split space t !! i = Some (JS.toUpperCase [c] ++ r))
    ∧ ((∀ i c r, JS.split space s !! i = Some (c :: r) →
                 length (JS.toUpperCase [c]) = 1%nat) →
       length t = length s).
Proof.
  eexists. split; [reflexivity|].
  rewrite split_titleCase by done.
  split; [apply length_fmap|]. split; [|split].
  - intros i Hi. rewrite list_lookup_fmap, Hi. simpl.
    by rewrite capitalize_nil.
  - intros i c r Hi. by rewrite list_lookup_fmap, Hi.
  - intros Hone. rewrite length_join_fmap; [by rewrite join_split|].
    apply Forall_lookup. intros i [|c r] Hi.
    + by rewrite capitalize_nil.
    + rewrite capitalize_cons, length_app, (Hone i c r Hi). done.
Qed.

Lemma titleCase_words_witness :
  ∃ t : JS.str,
    titleCase (H := JS.toUpperCase_latin1)
      (JS.VString (JS.lit "quantum  mechanics"))
    = JS.VString t
    ∧ t = JS.lit "Quantum  Mechanics"
    ∧ length (JS.split space t) = 3%nat
    ∧ length t = 18%nat.
Proof.
  destruct (titleCase_words (H := JS.toUpperCase_latin1) eq_refl
              latin1_no_space (JS.lit "quantum  mechanics"))
    as (t & Ht & Hwords & _ & _ & Hlen).
  exists t. split; [exact Ht|]. split; [by injection Ht|].
  split; [by rewrite Hwords|]. rewrite Hlen; [done|].
  intros i c r Hi.
  destruct i as [|[|[|i]]]; vm_compute in Hi; by simplify_eq.
Defined.

(** The claim as it is written fails: the sharp s (U+00DF) is one
    character and its title case "SS" is two. *)
Lemma titleCase_length_counterexample :
  ¬ (∀ s t : JS.str,
       titleCase (H := JS.toUpperCase_latin1) (JS.VString s) = JS.VString t →
       length t = length s).
Proof. intros Hlen. by specialize (Hlen [223%N] [83%N; 83%N] eq_refl). Qed.

(** Values that are not strings pass through. *)
Lemma titleCase_not_string `{JS.Casing} (v : JS.value) :
  JS.is_string v = false → titleCase v = v.
Proof. by destruct v. Qed.

(** *** Further facts about [titleCase] *)

Lemma split_app_sep (sep : N) (a b : JS.str) :
  JS.split sep (a ++ sep :: b) = JS.split sep a ++ JS.split sep b.
Proof.
  induction a as [|c a IH]; simpl.
  - by rewrite N.eqb_refl.
  - destruct (N.eqb c sep); [by rewrite IH|]. rewrite IH.
    pose proof (split_not_nil sep a).
    by destruct (JS.split sep a).
Qed.

Lemma join_app_sep (sep : N) (xs ys : list JS.str) :
  xs ≠ [] → ys ≠ [] →
  JS.join sep (xs ++ ys) = JS.join sep xs ++ sep :: JS.join sep ys.
Proof.
  intros Hxs Hys. induction xs as [|x xs IH]; [done|].
  destruct xs as [|x' xs]; simpl.
  - by destruct ys.
  - simpl in IH. rewrite IH by done. by rewrite <- app_assoc.
Qed.

(** X6. Title case works word by word: the title case of two strings
    put together with a space between them is the title case of the
    first, a space, and the title case of the second. This holds for
    every case mapping. *)
Theorem titleCase_app_space `{JS.Casing} (a b : JS.str) :
  ∃ ta tb : JS.str,
    titleCase (JS.VString a) = JS.VString ta
    ∧ titleCase (JS.VString b) = JS.VString tb
    ∧ titleCase (JS.VString (a ++ space :: b)) =
        JS.VString (ta ++ space :: tb).
Proof.
  do 2 eexists. split; [reflexivity|]. split; [reflexivity|].
  unfold titleCase. f_equal.
  rewrite split_app_sep, fmap_app.
  apply join_app_sep; intros Hnil%fmap_nil_inv; by apply split_not_nil in Hnil.
Qed.

(** In the Latin-1 table an upper-case form is not empty, and its first
    character is its own upper-case form. *)
Lemma latin1_upper_stable (c : N) :
  ∃ u rest, JS.toUpperCase_latin1 [c] = u :: rest
            ∧ JS.toUpperCase_latin1 [u] = [u].
Proof.
  unfold JS.toUpperCase_latin1. simpl. rewrite !app_nil_r.
  unfold JS.upper_unit at 1.
  repeat match goal with
  | |- context [(?a <=? ?b)%N] => destruct (N.leb_spec a b)
  | |- context [(?a =? ?b)%N] => destruct (N.eqb_spec a b)
  end; simpl; do 2 eexists; (split; [reflexivity|]);
  simpl; rewrite ?app_nil_r; unfold JS.upper_unit;
  repeat match goal with
  | |- context [(?a <=? ?b)%N] => destruct (N.leb_spec a b)
  | |- context [(?a =? ?b)%N] => destruct (N.eqb_spec a b)
  end; simpl; try reflexivity; lia.
Qed.

(** X7. Title case applied twice is title case applied once, for every
    case mapping that maps the empty string to itself, makes no spaces,
    and maps a character to a form that is not empty and begins with a
    character that is its own upper-case form. *)
Theorem titleCase_idempotent `{JS.Casing}
  (upper_empty : JS.toUpperCase [] = [])
  (upper_no_space : ∀ w, space ∉ w → space ∉ JS.toUpperCase w)
  (upper_stable : ∀ c, ∃ u rest,
     JS.toUpperCase [c] = u :: rest ∧ JS.toUpperCase [u] = [u])
  (v : JS.value) :
  titleCase (titleCase v) = titleCase v.
Proof.
  destruct v as [| |b|q|s]; try reflexivity.
  unfold titleCase. f_equal.
  rewrite split_titleCase by done. f_equal.
  rewrite <- list_fmap_compose. apply list_fmap_ext.
  intros _ w _. simpl.
  destruct w as [|c r]; [by rewrite !capitalize_nil|].
  rewrite capitalize_cons.
  destruct (upper_stable c) as (u & rest & Hup & Hu).
  rewrite Hup. simpl. rewrite capitalize_cons. by rewrite Hu.
Qed.

Lemma titleCase_idempotent_witness :
  titleCase (H := JS.toUpperCase_latin1)
    (titleCase (H := JS.toUpperCase_latin1)
       (JS.VString (JS.lit "wave  function collapse")))
  = JS.VString (JS.lit "Wave  Function Collapse").
Proof.
  rewrite (titleCase_idempotent (H := JS.toUpperCase_latin1) eq_refl
             latin1_no_space latin1_upper_stable).
  reflexivity.
Defined.

End TitleCase.

(** ** Fetching *)

Module Fetching.
Import AdminAnalytics.

#[local] Arguments JS.lit : simpl never.

Lemma records_Some (topics : list TopicAnalytics) :
  records (Some <$> topics) = Some topics.
Proof.
  induction topics as [|t l IH]; [done|].
  rewrite fmap_cons. cbn [records]. by rewrite IH.
Qed.

(** One step of a computation on an explicit world. *)
Ltac exec :=
  repeat (progress (
    unfold try_catch, setLoading, setData, setGraphData, setMaxMessages,
      console_log, console_error, perform, modify, SE.get, getState,
      getTrace, await, throw, session_idToken, sortBody, projectItems,
      mbind, SE.M_bind, mret, SE.M_ret;
    simpl; rewrite ?records_Some)).

(** The paths of one run of [fetchAnalytics], in the order of the
    source: no session, no token, no response, a response that is not
    ok, a body that cannot be read, a body that is not an array, an
    array of records, an array of fewer than two items with a [null],
    a longer array with a [null] on which the sort throws, on which the
    sort gives an array with a [null], and on which it gives an array
    of records. *)
Ltac paths env :=
  let Hrec := fresh "Hrec" in
  destruct (fetchAuthSession env) as [?|?session]; exec;
  [| destruct (tokens session) as [?t|]; exec;
     [ destruct (analyticsRequest env (idToken t)) as [?|?response]; exec;
       [| destruct (ok response); exec;
          [ destruct (json response) as [?|[|?items]]; exec;
            [ | | destruct (records items) as [?topics|] eqn:Hrec; exec;
                  [ | destruct (length items <? 2)%nat; exec;
                      [ rewrite ?Hrec; exec
                      | destruct (sortWithNull env items) as [?|?sorted];
                        exec;
                        [| destruct (records sorted) as [?topics|]; exec ]
                      ] ] ]
          | ] ]
     | ] ].

(** The trace of a run holds a [console.error], or it does not. *)
Ltac has_error :=
  first [ apply Exists_cons_hd; reflexivity
        | apply Exists_cons_tl; has_error ].

Ltac no_error H :=
  repeat (apply Exists_cons in H as [H|H]; [discriminate H|]);
  by apply Exists_nil in H.

(** C5, as the code has it. On every run of [fetchAnalytics] that
    writes a failure with [console.error], [setGraphData] is not called
    and the chart data is what it was. On the runs that end before the
    body is worked on (no session or token, a request that fails, a
    response that is not ok, a body that cannot be read or is not an
    array), the failure is written with [console.error], neither
    [setData] nor [setGraphData] is called, and the data and the chart
    data are what they were. *)
Theorem failure_keeps_state (env : Env) (s : ViewState) :
  let w := run (fetchAnalytics env) s in
  (Exists (λ e, is_ConsoleError e = true) (trace w) →
     graphData (view w) = graphData s
     ∧ Forall (λ e, is_SetGraphData e = false) (trace w))
  ∧ (stops_before_setters (outcome env) = true →
     Exists (λ e, is_ConsoleError e = true) (trace w)
     ∧ data (view w) = data s
     ∧ graphData (view w) = graphData s
     ∧ Forall (λ e, is_SetData e = false ∧ is_SetGraphData e = false)
         (trace w)).
Proof.
  unfold outcome, run, fetchAnalytics. exec.
  paths env; (split; [intros Herr|intros Hstop]); try discriminate Hstop;
    first [ by (split; [reflexivity|repeat constructor])
          | by (exfalso; no_error Herr)
          | by (split; [has_error|]; repeat split; repeat constructor) ].
Qed.

Lemma failure_keeps_state_witness :
  stops_before_setters (outcome Samples.forbidden) = true
  ∧ let w := run (fetchAnalytics Samples.forbidden) Samples.earlier in
    data (view w) = data Samples.earlier
    ∧ graphData (view w) = graphData Samples.earlier
    ∧ trace w = [SetLoading true;
                 ConsoleError (JS.lit "Failed to fetch analytics:")
                   (LText (JS.lit "Forbidden"));
                 SetLoading false].
Proof.
  split; [reflexivity|].
  destruct (failure_keeps_state Samples.forbidden Samples.earlier)
    as [_ Hstop].
  destruct (Hstop eq_refl) as (_ & Hdata & Hgraph & _).
  split; [exact Hdata|]. split; [exact Hgraph|]. reflexivity.
Defined.

(** The claim as it is written fails: when the server answers 200 with
    the array [[null]], the sort calls no comparator, [setData] is
    called with that array, the projection throws on the [null], and the
    failure is written with [console.error]: a run that fails after
    [setData], with the data replaced. *)
Lemma failure_keeps_state_counterexample :
  ¬ (∀ (env : Env) (s : ViewState),
       let w := run (fetchAnalytics env) s in
       Exists (λ e, is_ConsoleError e = true) (trace w) →
       data (view w) = data s
       ∧ Forall (λ e, is_SetData e = false ∧ is_SetGraphData e = false)
           (trace w)).
Proof.
  intros Hall.
  destruct (Hall MoreSamples.answeredNull Samples.earlier) as [Hdata _].
  - has_error.
  - discriminate Hdata.
Qed.

(** The path that gets an array of records: the sorted records become
    the data, their projection the chart data. *)
Lemma success_sets_state (env : Env) (s : ViewState) analyticsData :
  outcome env = Payload analyticsData →
  let w := run (fetchAnalytics env) s in
  data (view w) = Some <$> sortedAnalyticsData analyticsData
  ∧ graphData (view w) =
      graphDataFormatted (sortedAnalyticsData analyticsData)
  ∧ loading (view w) = false
  ∧ existsb is_SetGraphData (trace w) = true.
Proof.
  unfold outcome, run, fetchAnalytics. exec.
  paths env; try done. by intros [= ->].
Qed.

(** *** Further facts about [fetchAnalytics] *)

(** X8. [fetchAnalytics] never throws, whatever the session provider,
    the network and the body do: a failure to get the session or the
    token is caught like the others. Its first call is
    [setLoading(true)], its last call is [setLoading(false)], so the
    loading flag is off at the end of every run; the selected tab and
    the stored maximum are not touched. *)
Theorem fetchAnalytics_always_settles (env : Env) (s : ViewState) :
  let out := fetchAnalytics env {| view := s; trace := [] |} in
  out.1 = inr ()
  ∧ loading (view out.2) = false
  ∧ head (trace out.2) = Some (SetLoading true)
  ∧ last (trace out.2) = Some (SetLoading false)
  ∧ value (view out.2) = value s
  ∧ maxMessages (view out.2) = maxMessages s.
Proof. unfold fetchAnalytics. exec. paths env; done. Qed.



(** X10. On the path that gets an array of records of which at most
    one is named "General", the calls are, in this order:
    [setLoading(true)], the log of the sorted array, [setData] with the
    sorted array, [setGraphData] with its projection,
    [setLoading(false)]; nothing is written with [console.error]. *)
Theorem success_calls (env : Env) (s : ViewState)
  (analyticsData : list TopicAnalytics)
  (Hpayload : outcome env = Payload analyticsData)
  (Hmost :
     (length (filter (λ r, topic_name r = General) analyticsData) ≤ 1)%nat) :
  trace (run (fetchAnalytics env) s) =
    [ SetLoading true;
      ConsoleLog (JS.lit "analytics_data")
        (LData (Some <$> sortedAnalyticsData analyticsData));
      SetData (Some <$> sortedAnalyticsData analyticsData);
      SetGraphData (graphDataFormatted (sortedAnalyticsData analyticsData));
      SetLoading false ].
Proof.
  clear Hmost. revert Hpayload. unfold outcome, run, fetchAnalytics. exec.
  paths env; try done. by intros [= ->].
Qed.

Lemma success_calls_witness :
  existsb is_ConsoleError
    (trace (run (fetchAnalytics Samples.answered) Samples.earlier)) = false
  ∧ length (trace (run (fetchAnalytics Samples.answered) Samples.earlier))
    = 5%nat.
Proof.
  rewrite (success_calls Samples.answered Samples.earlier Samples.payload
             eq_refl); [|vm_compute; lia].
  split; reflexivity.
Defined.

End Fetching.

(** ** The Y axis of the chart *)

Module YAxis.
Import AdminAnalytics.

#[local] Arguments JS.lit : simpl never.






(** After a run that gets the sample payload, the chart is drawn with
    the bound 9 + 3. *)
Example mount_answered_chart :
  chartPanel (H := JS.toUpperCase_latin1)
    (view (run (mount Samples.answered) initialState))
  = LineChart
      (graphDataFormatted (sortedAnalyticsData Samples.payload))
      [ JS.VString (JS.lit "General"); JS.VString (JS.lit "Billing");
        JS.VString (JS.lit "Onboarding") ]
      (0, 12).
Proof. reflexivity. Qed.

End YAxis.

(** ** The database stack *)

Module StackFacts.
Import DatabaseStack.


(** Evaluation of the constructor that leaves the maps of overrides
    and the string concatenations as they are written. *)
Local Ltac evaluate :=
  unfold synth;
  lazy -[insert empty singletonM String.append interpolate vpc].

(** The constructor does not throw; the fields of the object. *)
Lemma synth_object (id : string) (prefix : option string)
  (vpcStack : VpcStack) :
  (synth id prefix vpcStack).1 =
  inr {| dbInstance := 0;
         secretPathAdminName := "QuantumAI/credentials/rdsDbCredential";
         secretPathUser :=
           NewSecret "QuantumAI/userCredentials/rdsDbCredential"
             "QuantumAI/userCredentials/rdsDbCredential"
             "Secrets for clients to connect to RDS" DESTROY
             [("username", unsafePlainText "applicationUsername");
              ("password", unsafePlainText "applicationPassword")];
         secretPathTableCreator :=
           NewSecret "QuantumAI/userCredentials/TableCreator"
             "QuantumAI/userCredentials/TableCreator"
             "Secrets for TableCreator to connect to RDS" DESTROY
             [("username", unsafePlainText "applicationUsername");
              ("password", unsafePlainText "applicationPassword")];
         rdsProxyEndpoint := EndpointOf 0;
         rdsProxyEndpointTableCreator := EndpointOf 1;
         rdsProxyEndpointAdmin := EndpointOf 2 |}.
Proof. evaluate. reflexivity. Qed.

(** The instances and the security groups declared. *)
Lemma synth_instances (id : string) (prefix : option string)
  (vpcStack : VpcStack) :
  instances (synth id prefix vpcStack).2 =
    [{| instanceId := "QuantumAI";
        instanceProps :=
          {| inVpc := vpc vpcStack;
             vpcSubnets := PRIVATE_ISOLATED;
             engine := "16.3";
             instanceType := ("BURSTABLE3", "MICRO");
             credentials :=
               (secretValueFromJson "QuantumAISecrets" "DB_Username",
                "QuantumAI/credentials/rdsDbCredential");
             multiAz := true;
             allocatedStorage := 100;
             maxAllocatedStorage := 115;
             allowMajorVersionUpgrade := false;
             autoMinorVersionUpgrade := true;
             backupRetentionDays := 7;
             deleteAutomatedBackups := true;
             deletionProtection := true;
             databaseName := "QuantumAIDatabase";
             publiclyAccessible := false;
             cloudwatchLogsRetention := None;
             storageEncrypted := true;
             monitoringIntervalSeconds := 60;
             parameterGroup := 0 |};
        connectionsSecurityGroups := [0%nat] |}].
Proof. evaluate. reflexivity. Qed.


(** The proxies declared, in the order of the source. *)
Lemma synth_proxies (id : string) (prefix : option string)
  (vpcStack : VpcStack) :
  proxies (synth id prefix vpcStack).2 =
    [ {| proxyId := id +:+ "-proxy";
         proxyTarget := 0;
         proxyOptions :=
           {| secrets :=
                [NewSecret "QuantumAI/userCredentials/rdsDbCredential"
                   "QuantumAI/userCredentials/rdsDbCredential"
                   "Secrets for clients to connect to RDS" DESTROY
                   [("username", unsafePlainText "applicationUsername");
                    ("password", unsafePlainText "applicationPassword")]];
              proxyVpc := vpc vpcStack;
              role := 0;
              proxySecurityGroups := [0%nat];
              requireTLS := false;
              dbProxyName :=
                Some (interpolate prefix +:+ "-" +:+ id +:+ "-proxy") |};
         children :=
           [ {| cfnType := CfnDBProxy; propertyOverrides := ∅ |};
             {| cfnType := CfnDBProxyTargetGroup;
                propertyOverrides :=
                  <["TargetGroupName" := "default"]>
                    (<["TargetGroupName" := "default"]> ∅) |} ] |};
      {| proxyId := id +:+ "+proxy";
         proxyTarget := 0;
         proxyOptions :=
           {| secrets :=
                [NewSecret "QuantumAI/userCredentials/TableCreator"
                   "QuantumAI/userCredentials/TableCreator"
                   "Secrets for TableCreator to connect to RDS" DESTROY
                   [("username", unsafePlainText "applicationUsername");
                    ("password", unsafePlainText "applicationPassword")]];
              proxyVpc := vpc vpcStack;
              role := 0;
              proxySecurityGroups := [0%nat];
              requireTLS := false;
              dbProxyName := None |};
         children :=
           [ {| cfnType := CfnDBProxy; propertyOverrides := ∅ |};
             {| cfnType := CfnDBProxyTargetGroup;
                propertyOverrides :=
                  <["TargetGroupName" := "default"]> ∅ |} ] |};
      {| proxyId := id +:+ "-proxy-admin";
         proxyTarget := 0;
         proxyOptions :=
           {| secrets :=
                [ImportedSecret "AdminSecret"
                   "QuantumAI/credentials/rdsDbCredential"];
              proxyVpc := vpc vpcStack;
              role := 0;
              proxySecurityGroups := [0%nat];
              requireTLS := false;
              dbProxyName := None |};
         children :=
           [ {| cfnType := CfnDBProxy; propertyOverrides := ∅ |};
             {| cfnType := CfnDBProxyTargetGroup;
                propertyOverrides := ∅ |} ] |} ].
Proof. evaluate. reflexivity. Qed.


(** C10. The override of [TargetGroupName] with "default" is made on
    the target group of the proxy of the application user and on the
    target group of the proxy of the table creator; the target group
    of the administrative proxy is there and has no override. *)
Theorem target_group_workaround (id : string) (prefix : option string)
  (vpcStack : VpcStack) :
  ∃ (stack : DatabaseStack) (r : Resources) user creator admin,
    synth id prefix vpcStack = (inr stack, r)
    ∧ proxyAt r (rdsProxyEndpoint stack) = Some user
    ∧ proxyAt r (rdsProxyEndpointTableCreator stack) = Some creator
    ∧ proxyAt r (rdsProxyEndpointAdmin stack) = Some admin
    ∧ secrets (proxyOptions user) = [secretPathUser stack]
    ∧ secrets (proxyOptions creator) = [secretPathTableCreator stack]
    ∧ secretName <$> secrets (proxyOptions admin) =
        [secretPathAdminName stack]
    ∧ targetGroupName user = Some "default"
    ∧ targetGroupName creator = Some "default"
    ∧ targetGroupName admin = None
    ∧ (∃ group, targetGroupOf admin = Some group
                ∧ propertyOverrides group = ∅).
Proof.
  pose proof (synth_object id prefix vpcStack) as Hobj.
  pose proof (synth_proxies id prefix vpcStack) as Hproxies.
  destruct (synth id prefix vpcStack) as [o r]. simpl in *. subst o.
  eexists _, r. do 3 eexists. split; [reflexivity|].
  unfold proxyAt. rewrite Hproxies. simpl.
  do 6 (split; [reflexivity|]).
  unfold targetGroupName, targetGroupOf. simpl.
  split; [apply lookup_insert_eq|]. split; [apply lookup_insert_eq|].
  split; [apply lookup_empty|]. by eexists.
Qed.

(** *** Further facts about the stack *)

Lemma synth_roles (id : string) (prefix : option string)
  (vpcStack : VpcStack) :
  roles (synth id prefix vpcStack).2 =
    [{| roleId := "RDSProxyRole";
        assumedBy := "rds.amazonaws.com";
        roleName := interpolate prefix +:+ "-RDSProxyRole";
        policy :=
          [ {| resources := [arnText "*"];
               actions := ["rds-db:connect"] |};
            {| resources :=
                 [arnOfSecret "QuantumAI/userCredentials/rdsDbCredential"];
               actions := ["secretsmanager:GetSecretValue";
                           "secretsmanager:DescribeSecret"] |};
            {| resources :=
                 [arnOfSecret "QuantumAI/userCredentials/TableCreator"];
               actions := ["secretsmanager:GetSecretValue";
                           "secretsmanager:DescribeSecret"] |};
            {| resources :=
                 [arnOfSecret "QuantumAI/credentials/rdsDbCredential"];
               actions := ["secretsmanager:GetSecretValue";
                           "secretsmanager:DescribeSecret"] |};
            {| resources := [arnOfDatabaseUser 0];
               actions := ["rds-db:connect"] |} ] |}].
Proof. evaluate. reflexivity. Qed.

Lemma synth_parameterGroups (id : string) (prefix : option string)
  (vpcStack : VpcStack) :
  parameterGroups (synth id prefix vpcStack).2 =
    [{| pgId := "rdsParameterGroup2"; pgEngineVersion := "16.3";
        pgDescription := "Empty parameter group";
        parameters := {[ "rds.force_ssl" := "0" ]} |}].
Proof. evaluate. reflexivity. Qed.

Lemma synth_declaredSecrets (id : string) (prefix : option string)
  (vpcStack : VpcStack) :
  declaredSecrets (synth id prefix vpcStack).2 =
    [ ImportedSecret "ImportedSecrets" "QuantumAISecrets";
      NewSecret "QuantumAI/userCredentials/rdsDbCredential"
        "QuantumAI/userCredentials/rdsDbCredential"
        "Secrets for clients to connect to RDS" DESTROY
        [("username", unsafePlainText "applicationUsername");
         ("password", unsafePlainText "applicationPassword")];
      NewSecret "QuantumAI/userCredentials/TableCreator"
        "QuantumAI/userCredentials/TableCreator"
        "Secrets for TableCreator to connect to RDS" DESTROY
        [("username", unsafePlainText "applicationUsername");
         ("password", unsafePlainText "applicationPassword")];
      DatabaseSecret "QuantumAI/Secret"
        "QuantumAI/credentials/rdsDbCredential"
        (secretValueFromJson "QuantumAISecrets" "DB_Username");
      ImportedSecret "AdminSecret" "QuantumAI/credentials/rdsDbCredential" ].
Proof. evaluate. reflexivity. Qed.

(** X15. Encryption in transit is not required anywhere in the stack:
    every proxy is declared with [requireTLS: false], and the parameter
    group of the instance sets [rds.force_ssl] to "0". *)
Theorem tls_not_required (id : string) (prefix : option string)
  (vpcStack : VpcStack) :
  let r := (synth id prefix vpcStack).2 in
  Forall (λ p, requireTLS (proxyOptions p) = false) (proxies r)
  ∧ ∃ db group,
      instances r = [db]
      ∧ parameterGroups r !! parameterGroup (instanceProps db) = Some group
      ∧ parameters group !! "rds.force_ssl" = Some "0".
Proof.
  cbv zeta. rewrite synth_proxies, synth_instances, synth_parameterGroups.
  split; [by repeat constructor|].
  do 2 eexists. split; [reflexivity|]. split; [reflexivity|].
  simpl. apply lookup_singleton_eq.
Qed.

(** X16. The three proxies share what the instance has: each proxy
    fronts the one instance, uses the one role of the stack, sits in the
    network of the instance and is put in the security groups of the
    instance. The role may be assumed by the database service; its
    policy holds the statement of the source ([rds-db:connect] on every
    resource), then for each proxy a statement that lets it read the
    secret of that proxy, then the statement that lets it connect as a
    database user of the instance. *)
Theorem proxies_share_role_and_groups (id : string)
  (prefix : option string) (vpcStack : VpcStack) :
  let r := (synth id prefix vpcStack).2 in
  ∃ db rdsProxyRole,
    instances r = [db]
    ∧ Forall (λ p, instances r !! proxyTarget p = Some db
                   ∧ roles r !! role (proxyOptions p) = Some rdsProxyRole
                   ∧ proxySecurityGroups (proxyOptions p) =
                       connectionsSecurityGroups db
                   ∧ proxyVpc (proxyOptions p) = inVpc (instanceProps db))
        (proxies r)
    ∧ assumedBy rdsProxyRole = "rds.amazonaws.com"
    ∧ policy rdsProxyRole =
        {| resources := [arnText "*"]; actions := ["rds-db:connect"] |}
        :: ((λ p, {| resources :=
                       arnOfSecret ∘ secretName <$> secrets (proxyOptions p);
                     actions := ["secretsmanager:GetSecretValue";
                                 "secretsmanager:DescribeSecret"] |})
              <$> proxies r)
        ++ [{| resources := [arnOfDatabaseUser 0];
               actions := ["rds-db:connect"] |}].
Proof.
  cbv zeta.
  rewrite synth_proxies, synth_instances, synth_roles.
  do 2 eexists. split; [reflexivity|].
  split; [by repeat constructor|]. by repeat split.
Qed.


(** X18. The override on the target group of the first proxy is made
    twice in the source; the second call changes nothing. In the end the
    target groups of the first two proxies hold the same overrides, the
    single entry [TargetGroupName] = "default", and no other nested
    resource of any proxy has an override. *)
Theorem override_made_twice_is_harmless (id : string)
  (prefix : option string) (vpcStack : VpcStack) :
  (λ p, propertyOverrides <$> children p) <$>
    proxies (synth id prefix vpcStack).2 =
  [ [∅; {[ "TargetGroupName" := "default" ]}];
    [∅; {[ "TargetGroupName" := "default" ]}];
    [∅; ∅] ].
Proof.
  rewrite synth_proxies. simpl.
  by rewrite insert_insert_eq, insert_empty.
Qed.

(** X19. The secrets of the stack: the two secrets it makes are removed
    with the stack and start with the same placeholder user name and
    password; the instance makes the secret of its own credentials,
    with the user name read from the key [DB_Username] of the secret
    [QuantumAISecrets]; and the secret of the administrative proxy is
    looked up under the name of that secret of the instance. *)
Theorem stack_secrets (id : string) (prefix : option string)
  (vpcStack : VpcStack) :
  let r := (synth id prefix vpcStack).2 in
  ∃ imported user creator own admin db,
    declaredSecrets r = [imported; user; creator; own; admin]
    ∧ (∀ s, s ∈ [user; creator] →
         ∃ sid name description,
           s = NewSecret sid name description DESTROY
                 [("username", unsafePlainText "applicationUsername");
                  ("password", unsafePlainText "applicationPassword")])
    ∧ instances r = [db]
    ∧ credentials (instanceProps db) =
        (secretValueFromJson (secretName imported) "DB_Username",
         secretName own)
    ∧ (∃ sid, own = DatabaseSecret sid (secretName own)
                      (secretValueFromJson "QuantumAISecrets" "DB_Username"))
    ∧ secretName imported = "QuantumAISecrets"
    ∧ admin = ImportedSecret "AdminSecret" (secretName own).
Proof.
  cbv zeta. rewrite synth_declaredSecrets, synth_instances.
  do 6 eexists. split; [reflexivity|]. split.
  - intros s [->|[->|[]%elem_of_nil]%elem_of_cons]%elem_of_cons;
      by do 3 eexists.
  - repeat split. by eexists.
Qed.

End StackFacts.

(** ** The mounted component *)

Module Lifecycle.
Import AdminAnalytics.

#[local] Arguments JS.lit : simpl never.

(** The state after a run that ends before the body is worked on: only
    the loading flag is written. *)
Lemma mount_failure_view (env : Env) (s : ViewState) :
  stops_before_setters (outcome env) = true →
  view (run (mount env) s) =
    {| value := value s; graphData := graphData s; data := data s;
       maxMessages := maxMessages s; loading := false |}.
Proof.
  unfold outcome, run, mount, fetchAnalytics, updateMaxMessages.
  Fetching.exec. Fetching.paths env; done.
Qed.

(** The state after a run that gets an array of records. *)
Lemma mount_success_view (env : Env) (s : ViewState) l :
  outcome env = Payload l →
  view (run (mount env) s) =
    {| value := value s;
       graphData := graphDataFormatted (sortedAnalyticsData l);
       data := Some <$> sortedAnalyticsData l;
       maxMessages :=
         default (maxMessages s)
           (JS.Math_max
              (Messages <$> graphDataFormatted (sortedAnalyticsData l)));
       loading := false |}.
Proof.
  unfold outcome, run, mount, fetchAnalytics, updateMaxMessages.
  Fetching.exec. Fetching.paths env; try done.
  intros [= ->].
  destruct (graphDataFormatted (sortedAnalyticsData l)) as [|p g];
    Fetching.exec; done.
Qed.

(** X11. A run that gets an empty array empties the data and the chart
    data and leaves the stored maximum as it was: the effect does not
    compute a maximum for an empty chart data set. *)
Theorem empty_payload_keeps_maximum (env : Env) (s : ViewState)
  (Hempty : outcome env = Payload []) :
  view (run (mount env) s) =
    {| value := value s; graphData := []; data := [];
       maxMessages := maxMessages s; loading := false |}.
Proof. by rewrite (mount_success_view env s []). Qed.

Lemma empty_payload_keeps_maximum_witness :
  maxMessages (view (run (mount MoreSamples.answeredEmpty) Samples.earlier))
  = 5
  ∧ data (view (run (mount MoreSamples.answeredEmpty) Samples.earlier)) = [].
Proof.
  rewrite (empty_payload_keeps_maximum MoreSamples.answeredEmpty
             Samples.earlier eq_refl).
  split; reflexivity.
Defined.

(** X12. Starting from the initial state, a run that ends before the
    body is worked on (no session or token, a request that fails, a
    response that is not ok, a body that cannot be read or is not an
    array) and a run that gets an empty array end in the same page: "No
    data found" in the chart box and "No insights available" below
    it. *)
Theorem failure_renders_like_empty `{JS.Casing} (failing empty : Env)
  (Hfail : stops_before_setters (outcome failing) = true)
  (Hempty : outcome empty = Payload []) :
  render (view (run (mount failing) initialState)) =
    inr (Page (ChartText (JS.lit "No data found"))
              (InsightText (JS.lit "No insights available")))
  ∧ render (view (run (mount empty) initialState)) =
      render (view (run (mount failing) initialState)).
Proof.
  rewrite (mount_failure_view failing initialState Hfail).
  rewrite (mount_success_view empty initialState [] Hempty).
  split; reflexivity.
Qed.

Lemma failure_renders_like_empty_witness :
  render (H := JS.toUpperCase_latin1)
    (view (run (mount MoreSamples.signedOut) initialState))
  = render (H := JS.toUpperCase_latin1)
      (view (run (mount MoreSamples.answeredEmpty) initialState)).
Proof.
  destruct (failure_renders_like_empty (H := JS.toUpperCase_latin1)
              MoreSamples.signedOut MoreSamples.answeredEmpty eq_refl eq_refl)
    as [_ Hsame].
  symmetry. exact Hsame.
Defined.



End Lifecycle.
